(** * csv-campaign-processor: a shallow embedding and its checked properties

    The pipeline of the repository (parse -> generate links -> shorten ->
    render) is embedded function by function.  JavaScript strings are
    modelled as [string] (one [ascii] per code unit, so the model covers
    the code units below 256); plain JavaScript objects used as
    dictionaries are [gmap string _] together with the members every
    object inherits from [Object.prototype]; a [throw] is the [Throw]
    constructor of [result]. *)

From Stdlib Require Import ZArith Lia Ascii String DecimalString DecimalNat
  Sorted.
From stdpp Require Import gmap strings list.

Local Open Scope Z_scope.
Local Open Scope stdpp_scope.

(** ** Exceptions *)

Inductive result (A : Type) : Type :=
| Ok (a : A)
| Throw (message : string).
Arguments Ok {A} a.
Arguments Throw {A} message.

Definition bind {A B} (r : result A) (k : A -> result B) : result B :=
  match r with
  | Ok a => k a
  | Throw m => Throw m
  end.

Notation "'let!' x ':=' r 'in' k" := (bind r (fun x => k))
  (at level 10, x name, r at level 100, k at level 200).

(** ** JavaScript strings *)

Module JsString.

(** White space of [String.prototype.trim] and of the class [\s], among
    the code units below 256: TAB, LF, VT, FF, CR, SPACE and NBSP. *)
Definition is_space (c : ascii) : bool :=
  match c with
  | "009" | "010" | "011" | "012" | "013" | " " | "160" => true
  | _ => false
  end%char.

(** The class [\d]. *)
Definition is_digit (c : ascii) : bool :=
  let n := nat_of_ascii c in (48 <=? n)%nat && (n <=? 57)%nat.

Definition is_empty (s : string) : bool :=
  match s with
  | EmptyString => true
  | String _ _ => false
  end.

Fixpoint trimStart (s : string) : string :=
  match s with
  | EmptyString => EmptyString
  | String c s' => if is_space c then trimStart s' else s
  end.

Fixpoint trimEnd (s : string) : string :=
  match s with
  | EmptyString => EmptyString
  | String c s' =>
      let r := trimEnd s' in
      if is_space c && is_empty r then EmptyString else String c r
  end.

Definition trim (s : string) : string := trimEnd (trimStart s).

(** [s.replace(/\s+/g, ' ')]: every maximal run of white space becomes
    one space. *)
Fixpoint collapse_from (in_run : bool) (s : string) : string :=
  match s with
  | EmptyString => EmptyString
  | String c s' =>
      if is_space c
      then if in_run then collapse_from true s'
           else String " "%char (collapse_from true s')
      else String c (collapse_from false s')
  end.

Definition collapse_spaces (s : string) : string := collapse_from false s.

(** [s.replace(/\D/g, '')]. *)
Fixpoint digits (s : string) : string :=
  match s with
  | EmptyString => EmptyString
  | String c s' => if is_digit c then String c (digits s') else digits s'
  end.

(** [toLowerCase] on the code units below 256: A-Z and the Latin-1
    capitals (0xC0-0xDE without the multiplication sign 0xD7). *)
Definition lower_char (c : ascii) : ascii :=
  let n := nat_of_ascii c in
  if ((65 <=? n)%nat && (n <=? 90)%nat)
     || ((192 <=? n)%nat && (n <=? 222)%nat && negb (n =? 215)%nat)
  then ascii_of_nat (n + 32)
  else c.

Fixpoint toLowerCase (s : string) : string :=
  match s with
  | EmptyString => EmptyString
  | String c s' => String (lower_char c) (toLowerCase s')
  end.

(** [s.startsWith(p)]. *)
Definition startsWith (p s : string) : bool := String.prefix p s.

(** [s.includes(needle)]. *)
Fixpoint includes (needle s : string) : bool :=
  String.prefix needle s
  || match s with
     | EmptyString => false
     | String _ s' => includes needle s'
     end.

(** [parts.join(sep)]. *)
Fixpoint join (sep : string) (parts : list string) : string :=
  match parts with
  | [] => EmptyString
  | [p] => p
  | p :: rest => p +:+ sep +:+ join sep rest
  end.

Fixpoint repeat_char (c : ascii) (n : nat) : string :=
  match n with
  | O => EmptyString
  | S k => String c (repeat_char c k)
  end.

(** [s.padStart(n, c)] for a one-character filler. *)
Definition padStart (n : nat) (c : ascii) (s : string) : string :=
  repeat_char c (n - String.length s) +:+ s.

(** [n.toString()] for a non-negative integer. *)
Definition toString (n : nat) : string :=
  NilEmpty.string_of_uint (Nat.to_uint n).

(** [x || fallback] on strings: the empty string is falsy. *)
Definition or_else (x : option string) (fallback : string) : string :=
  match x with
  | Some (String c s) => String c s
  | _ => fallback
  end.

(** [GetSubstitution] of ECMAScript for a pattern without capture
    groups: in the replacement text [$$] stands for one dollar sign,
    [$&] for the matched text, [$`] for what precedes the match and
    [$'] for what follows it; every other character, a dollar sign
    followed by anything else included, stands for itself. *)
Fixpoint getSubstitution (matched before after repl : string) : string :=
  match repl with
  | EmptyString => EmptyString
  | String "$" (String "$" r) =>
      String "$" (getSubstitution matched before after r)
  | String "$" (String "&" r) =>
      matched +:+ getSubstitution matched before after r
  | String "$" (String "`" r) =>
      before +:+ getSubstitution matched before after r
  | String "$" (String "'" r) =>
      after +:+ getSubstitution matched before after r
  | String c r => String c (getSubstitution matched before after r)
  end%char.

Fixpoint drop (n : nat) (s : string) : string :=
  match n, s with
  | S k, String _ s' => drop k s'
  | _, _ => s
  end.

(** [s.replace(new RegExp(pat, 'g'), repl)] for a pattern [pat] that is
    a non-empty run of ordinary characters: the occurrences of [pat]
    are found from left to right without overlap and each is replaced
    by the expansion of [repl].  [before] is the text already scanned,
    [skip] the number of characters of the current match still to pass. *)
Fixpoint replace_from (pat repl before : string) (skip : nat) (s : string)
  : string :=
  match s with
  | EmptyString => EmptyString
  | String c s' =>
      let before' := before +:+ String c EmptyString in
      match skip with
      | S k => replace_from pat repl before' k s'
      | O =>
          if String.prefix pat s
          then getSubstitution pat before (drop (String.length pat) s) repl
               +:+ replace_from pat repl before' (String.length pat - 1) s'
          else String c (replace_from pat repl before' O s')
      end
  end.

Definition replaceAll (pat repl s : string) : string :=
  replace_from pat repl EmptyString O s.

(** Plain textual replacement, the reading of "exact-token
    find-and-replace": each occurrence of [pat] gives way to [repl]
    itself. *)
Fixpoint replace_literal_from (pat repl : string) (skip : nat) (s : string)
  : string :=
  match s with
  | EmptyString => EmptyString
  | String c s' =>
      match skip with
      | S k => replace_literal_from pat repl k s'
      | O =>
          if String.prefix pat s
          then repl +:+ replace_literal_from pat repl (String.length pat - 1) s'
          else String c (replace_literal_from pat repl O s')
      end
  end.

Definition replaceAllLiteral (pat repl s : string) : string :=
  replace_literal_from pat repl O s.

End JsString.

(** ** Plain objects used as dictionaries *)

Module JsObject.

(** The members an object literal inherits from [Object.prototype].
    Each of them is a function, except [__proto__], an accessor that
    yields [Object.prototype] itself: all are truthy. *)
Definition prototype_members : list string :=
  [ "constructor"; "__defineGetter__"; "__defineSetter__";
    "hasOwnProperty"; "__lookupGetter__"; "__lookupSetter__";
    "isPrototypeOf"; "propertyIsEnumerable"; "toString"; "valueOf";
    "__proto__"; "toLocaleString" ].

Inductive property (A : Type) : Type :=
| Own (a : A)
| Inherited (name : string)
| Undefined.
Arguments Own {A} a.
Arguments Inherited {A} name.
Arguments Undefined {A}.

(** [o[k]]: own properties first, then the prototype. *)
Definition get {A} (o : gmap string A) (k : string) : property A :=
  match o !! k with
  | Some a => Own a
  | None =>
      if bool_decide (k ∈ prototype_members) then Inherited k else Undefined
  end.

(** [o[k] = v] for a string [v]: the [__proto__] setter ignores a value
    that is not an object and no own property is created. *)
Definition set {A} (o : gmap string A) (k : string) (v : A) : gmap string A :=
  if bool_decide (k = "__proto__") then o else <[k := v]> o.

End JsObject.


(** A value a property read or an assignment can leave in a field that
    the data model types as a string: [null], a string, or a member
    inherited from [Object.prototype]. *)
Inductive js_value : Type :=
| JNull
| JStr (s : string)
| JInherited (name : string).

(** ** Records of the data model *)

(** A Prospect; [B] is the type of the [business_type] field. *)
Record ProspectOf (B : Type) : Type := mkProspect {
  p_id : string;
  p_company : string;
  p_city : string;
  p_phone : string;
  p_business_type : B;
  p_original_row : nat
}.
Arguments mkProspect {B}.
Arguments p_id {B}.
Arguments p_company {B}.
Arguments p_city {B}.
Arguments p_phone {B}.
Arguments p_business_type {B}.
Arguments p_original_row {B}.

Abbreviation Prospect := (ProspectOf string).

Record Metadata : Type := mkMetadata {
  m_prospect_id : string;
  m_business_type : string;
  m_site_index : nat;
  m_site_display_name : string;
  m_company : string
}.

Record LinkMapping : Type := mkLinkMapping {
  original_url : string;
  metadata : Metadata
}.

(** One link of a ProspectLinkGroup; [S] is the type of [short_url]. *)
Record UrlEntry (S : Type) : Type := mkUrlEntry {
  u_original_url : string;
  u_display_name : string;
  u_site_index : nat;
  u_short_url : S
}.
Arguments mkUrlEntry {S}.
Arguments u_original_url {S}.
Arguments u_display_name {S}.
Arguments u_site_index {S}.
Arguments u_short_url {S}.

Record ProspectGroup (S : Type) : Type := mkProspectGroup {
  g_prospect_id : string;
  g_company : string;
  g_business_type : string;
  g_urls : list (UrlEntry S)
}.
Arguments mkProspectGroup {S}.
Arguments g_prospect_id {S}.
Arguments g_company {S}.
Arguments g_business_type {S}.
Arguments g_urls {S}.

Record ShortenData : Type := mkShortenData {
  shortUrl : string;
  shortCode : string;
  originalUrl : string;
  expiresAt : Z
}.

Record ShortenResult : Type := mkShortenResult {
  success : bool;
  r_original_url : string;
  data : option ShortenData;
  r_metadata : option Metadata;
  fallback : bool;
  r_error : option string
}.

(** ** csv-parser.js *)

Module CsvParser.
Import JsString.

Definition dquote : string := String "034"%char EmptyString.

Definition requiredFields : list string :=
  ["company"; "city"; "phone"; "business_type"].

(** [!row[field] || row[field].trim() === ''].  The four field names are
    not members of [Object.prototype], so the read is the own lookup. *)
Definition is_missing (row : gmap string string) (field : string) : bool :=
  match row !! field with
  | None => true
  | Some v => is_empty v || is_empty (trim v)
  end.

(** [!x || x.trim().length === 0] *)
Definition is_blank (x : option string) : bool :=
  match x with
  | None => true
  | Some v => is_empty v || (String.length (trim v) =? 0)%nat
  end.

Definition cleanCompanyName (company : option string) : result string :=
  if is_blank company then Throw "Company name cannot be empty"
  else
    let cleaned := collapse_spaces (trim (default EmptyString company)) in
    if (100 <? String.length cleaned)%nat
    then Throw "Company name too long (max 100 characters)"
    else Ok cleaned.

Definition cleanCityName (city : option string) : result string :=
  if is_blank city then Throw "City name cannot be empty"
  else
    let cleaned := collapse_spaces (trim (default EmptyString city)) in
    if (50 <? String.length cleaned)%nat
    then Throw "City name too long (max 50 characters)"
    else Ok cleaned.

Definition cleanPhoneNumber (phone : option string) : result string :=
  if is_blank phone then Throw "Phone number cannot be empty"
  else
    let cleaned := trim (default EmptyString phone) in
    if (String.length (digits cleaned) <? 10)%nat
    then Throw "Phone number must contain at least 10 digits"
    else Ok cleaned.

Definition validTypes : list string := ["plumbing"; "landscaping"; "general"].

(** The object literal [corrections]. *)
Definition corrections : gmap string string :=
  list_to_map
    [ ("plumber", "plumbing"); ("plumbers", "plumbing");
      ("landscape", "landscaping"); ("landscaper", "landscaping");
      ("landscapers", "landscaping"); ("garden", "landscaping");
      ("gardening", "landscaping"); ("other", "general");
      ("misc", "general"); ("service", "general") ].

(** [corrections[cleaned]] is read through the prototype chain: for a
    name inherited from [Object.prototype] the read finds that member,
    which is truthy, and the function returns it. *)
Definition validateBusinessType (businessType : option string)
  : result js_value :=
  if is_blank businessType then Throw "Business type cannot be empty"
  else
    let raw := default EmptyString businessType in
    let cleaned := toLowerCase (trim raw) in
    if bool_decide (cleaned ∈ validTypes) then Ok (JStr cleaned)
    else
      match JsObject.get corrections cleaned with
      | JsObject.Own c =>
          if is_empty c
          then Throw ("Invalid business type: " +:+ dquote +:+ raw +:+ dquote
                      +:+ ". Must be one of: " +:+ join ", " validTypes)
          else Ok (JStr c)
      | JsObject.Inherited name => Ok (JInherited name)
      | JsObject.Undefined =>
          Throw ("Invalid business type: " +:+ dquote +:+ raw +:+ dquote
                 +:+ ". Must be one of: " +:+ join ", " validTypes)
      end.

Definition validateAndCleanProspect (row : gmap string string)
  (rowNumber : nat) : result (ProspectOf js_value) :=
  let missing := List.filter (is_missing row) requiredFields in
  if (0 <? length missing)%nat
  then Throw ("Missing required fields: " +:+ join ", " missing)
  else
    let! company := cleanCompanyName (row !! "company") in
    let! city := cleanCityName (row !! "city") in
    let! phone := cleanPhoneNumber (row !! "phone") in
    let! business_type := validateBusinessType (row !! "business_type") in
    let id := "prospect_" +:+ padStart 4 "0" (toString rowNumber) in
    Ok (mkProspect id company city phone business_type rowNumber).

(** The state the stream handlers of [parseProspectsCSV] close over. *)
Record ParseState : Type := mkParseState {
  prospects : list (ProspectOf js_value);
  rowCount : nat;
  errors : list string
}.

Definition initial : ParseState := mkParseState [] 0 [].

(** The ['data'] handler. *)
Definition on_data (st : ParseState) (row : gmap string string) : ParseState :=
  let rowCount' := S (rowCount st) in
  match validateAndCleanProspect row rowCount' with
  | Ok prospect =>
      mkParseState (prospects st ++ [prospect]) rowCount' (errors st)
  | Throw message =>
      mkParseState (prospects st) rowCount'
        (errors st ++ ["Row " +:+ toString rowCount' +:+ ": " +:+ message])
  end.

(** The ['end'] handler: reject or resolve. *)
Definition on_end (st : ParseState) : result (list (ProspectOf js_value)) :=
  if (length (prospects st) =? 0)%nat
  then Throw "No valid prospects found in CSV file"
  else Ok (prospects st).

(** [parseProspectsCSV] on the rows the stream delivers, in order (the
    file is taken to exist and to be read without a stream error).  The
    function has the single parameter [filePath]. *)
Definition parseProspectsCSV (rows : list (gmap string string))
  : result (list (ProspectOf js_value)) :=
  on_end (fold_left on_data rows initial).

End CsvParser.


(** ** url-generator.js *)

(** The platform's [URL] class, as far as the generator uses it:
    [new URL(s)] (which throws on a string that is not a URL),
    [url.searchParams.set(k, v)] and [url.toString()]. *)
Class UrlApi : Type := {
  URL : Type;
  new_URL : string -> option URL;
  searchParams_set : URL -> string -> string -> URL;
  url_toString : URL -> string
}.

Record Site : Type := mkSite {
  site_url : string;
  site_display_name : string
}.

(** An entry of [config/business-types.json]; [sites] may be absent. *)
Record BusinessTypeConfig : Type := mkBusinessTypeConfig {
  sites : option (list Site)
}.

Module UrlGenerator.
Import JsString.

Section Generator.
Context `{api : UrlApi}.

Definition createPersonalizedUrl (baseUrl company city phone : string)
  : result string :=
  match new_URL baseUrl with
  | Some url =>
      let url := searchParams_set url "company" company in
      let url := searchParams_set url "city" city in
      let url := searchParams_set url "phone" phone in
      Ok (url_toString url)
  | None => Throw ("Invalid base URL: " +:+ baseUrl)
  end.

(** The body of [sites.forEach((site, index) => ...)]: one push per
    site, the first throw ends the loop. *)
Fixpoint forEach_site (prospect : Prospect) (sites : list Site)
  (index : nat) (urlMappings : list LinkMapping)
  : result (list LinkMapping) :=
  match sites with
  | [] => Ok urlMappings
  | site :: rest =>
      let! personalizedUrl :=
        createPersonalizedUrl (site_url site) (p_company prospect)
          (p_city prospect) (p_phone prospect) in
      forEach_site prospect rest (S index)
        (urlMappings ++
           [mkLinkMapping personalizedUrl
              (mkMetadata (p_id prospect) (p_business_type prospect) index
                 (site_display_name site) (p_company prospect))])
  end.

Definition generateUrlsForProspect (prospect : Prospect)
  (businessConfig : gmap string BusinessTypeConfig)
  : result (list LinkMapping) :=
  let business_type := p_business_type prospect in
  match JsObject.get businessConfig business_type with
  | JsObject.Undefined =>
      Throw ("No configuration found for business type: " +:+ business_type)
  | JsObject.Inherited _ =>
      (* an inherited member is truthy and has no [sites] *)
      Throw ("No demo sites configured for business type: " +:+ business_type)
  | JsObject.Own businessTypeConfig =>
      match sites businessTypeConfig with
      | None | Some [] =>
          Throw ("No demo sites configured for business type: "
                 +:+ business_type)
      | Some sites => forEach_site prospect sites 0 []
      end
  end.

(** One turn of the loop of [generateDemoUrls]: the [try] block and its
    [catch], which only logs.  The state is [urlMappings] and
    [totalUrls]. *)
Definition demo_urls_step (businessConfig : gmap string BusinessTypeConfig)
  (st : list LinkMapping * nat) (prospect : Prospect)
  : list LinkMapping * nat :=
  match generateUrlsForProspect prospect businessConfig with
  | Ok prospectUrls =>
      (st.1 ++ prospectUrls, (st.2 + length prospectUrls)%nat)
  | Throw _ => st
  end.

(** [generateDemoUrls], once [config/business-types.json] has been read
    into [businessConfig] (the read happens before the loop).  The
    breakdown by category that follows the loop only feeds the console. *)
Definition generateDemoUrls (businessConfig : gmap string BusinessTypeConfig)
  (prospects : list Prospect) : list LinkMapping :=
  (fold_left (demo_urls_step businessConfig) prospects ([], 0%nat)).1.

End Generator.

(** The lookup table of [updateWithShortUrls], one result at a time:
    [if (result.success && result.data) urlLookup[...] = ...]. *)
Definition record_result (urlLookup : gmap string string) (r : ShortenResult)
  : gmap string string :=
  match success r, data r with
  | true, Some d => JsObject.set urlLookup (r_original_url r) (shortUrl d)
  | _, _ => urlLookup
  end.

Definition build_lookup (shortenedResults : list ShortenResult)
  : gmap string string :=
  fold_left record_result shortenedResults ∅.

(** [if (urlLookup[url.original_url]) ... else ...] on one link. *)
Definition update_url {S} (urlLookup : gmap string string) (url : UrlEntry S)
  : UrlEntry js_value :=
  let short :=
    match JsObject.get urlLookup (u_original_url url) with
    | JsObject.Own s =>
        if is_empty s then JStr (u_original_url url) else JStr s
    | JsObject.Inherited name => JInherited name
    | JsObject.Undefined => JStr (u_original_url url)
    end in
  mkUrlEntry (u_original_url url) (u_display_name url) (u_site_index url)
    short.

Definition update_group {S} (urlLookup : gmap string string)
  (prospect : ProspectGroup S) : ProspectGroup js_value :=
  mkProspectGroup (g_prospect_id prospect) (g_company prospect)
    (g_business_type prospect) (update_url urlLookup <$> g_urls prospect).

(** [updateWithShortUrls]: every link of every group is assigned, and
    the grouped object is returned.  (The two counters only feed the
    console.) *)
Definition updateWithShortUrls {S}
  (groupedMappings : gmap string (ProspectGroup S))
  (shortenedResults : list ShortenResult)
  : gmap string (ProspectGroup js_value) :=
  update_group (build_lookup shortenedResults) <$> groupedMappings.

(** The object [groupUrlsByProspect] pushes for a mapping. *)
Definition url_entry (mapping : LinkMapping) : UrlEntry js_value :=
  mkUrlEntry (original_url mapping)
    (m_site_display_name (metadata mapping))
    (m_site_index (metadata mapping)) JNull.

(** One turn of [urlMappings.forEach] in [groupUrlsByProspect].  The test
    [!grouped[prospectId]] and the read [grouped[prospectId].urls] go
    through the prototype chain: for an identifier that names an inherited
    member no group is created and [urls] is [undefined], so [push]
    throws. *)
Definition group_step (grouped : gmap string (ProspectGroup js_value))
  (mapping : LinkMapping) : result (gmap string (ProspectGroup js_value)) :=
  let prospectId := m_prospect_id (metadata mapping) in
  match JsObject.get grouped prospectId with
  | JsObject.Undefined =>
      Ok (<[prospectId :=
              mkProspectGroup prospectId (m_company (metadata mapping))
                (m_business_type (metadata mapping)) [url_entry mapping]]>
            grouped)
  | JsObject.Own group =>
      Ok (<[prospectId :=
              mkProspectGroup (g_prospect_id group) (g_company group)
                (g_business_type group)
                (g_urls group ++ [url_entry mapping])]> grouped)
  | JsObject.Inherited _ =>
      Throw "Cannot read properties of undefined (reading 'push')"
  end.

Fixpoint group_from (grouped : gmap string (ProspectGroup js_value))
  (urlMappings : list LinkMapping)
  : result (gmap string (ProspectGroup js_value)) :=
  match urlMappings with
  | [] => Ok grouped
  | mapping :: rest =>
      let! grouped := group_step grouped mapping in
      group_from grouped rest
  end.

Definition groupUrlsByProspect (urlMappings : list LinkMapping)
  : result (gmap string (ProspectGroup js_value)) :=
  group_from ∅ urlMappings.

End UrlGenerator.

(** A small instance of the [URL] interface, for the examples: a URL is
    an [https://] address together with its query parameters in order,
    and it is printed with the parameters as they are (no
    percent-encoding). *)
Module SampleUrl.
Import JsString.

Fixpoint set_param (k v : string) (params : list (string * string))
  : list (string * string) :=
  match params with
  | [] => [(k, v)]
  | (k', v') :: rest =>
      if bool_decide (k' = k) then (k, v) :: rest
      else (k', v') :: set_param k v rest
  end.

Definition print (url : string * list (string * string)) : string :=
  url.1 +:+ "?" +:+ join "&" ((fun kv => kv.1 +:+ "=" +:+ kv.2) <$> url.2).

Definition api : UrlApi := {|
  URL := string * list (string * string);
  new_URL := fun s => if startsWith "https://" s then Some (s, []) else None;
  searchParams_set := fun url k v => (url.1, set_param k v url.2);
  url_toString := print
|}.

End SampleUrl.

(** ** bulk-uploader.js *)

Module BulkUploader.
Import JsString.

Definition MAX_RETRIES : nat := 3.
Definition RETRY_DELAY : Z := 2000.

(** What [isRetryable] reads of an error. *)
Record JsError : Type := mkJsError {
  code : option string;
  message : option string;
  response_status : option Z
}.

(** [new Error(msg)] *)
Definition new_Error (msg : string) : JsError := mkJsError None (Some msg) None.

Record ResponseData : Type := mkResponseData {
  rd_success : bool;
  rd_results : option (list ShortenResult);
  rd_error : option string
}.

(** How one [axios.post] settles: rejected with an error, or resolved
    with a response whose body may be empty. *)
Inductive Settled : Type :=
| Rejected (error : JsError)
| Resolved (response_data : option ResponseData).

Record RequestUrl : Type := mkRequestUrl {
  q_original_url : string;
  q_prospect_id : string;
  q_business_type : string;
  q_company : string
}.

(** What the client does to the outside world. *)
Inductive Event : Type :=
| Post (attempt : nat) (urls : list RequestUrl)
| Sleep (ms : Z).

Definition isRetryable (error : JsError) : bool :=
  if match code error with
     | Some c =>
         bool_decide (c = "ECONNRESET") || bool_decide (c = "ENOTFOUND")
         || bool_decide (c = "ETIMEDOUT")
     | None => false
     end
  then true
  else if match message error with
          | Some m => includes "timeout" m
          | None => false
          end
  then true
  else if match response_status error with
          | Some st => (500 <=? st)%Z
          | None => false
          end
  then true
  else if match response_status error with
          | Some st => (st =? 429)%Z
          | None => false
          end
  then true
  else false.

(** The [try] block of one attempt: the results to return, or the error
    the [catch] clause receives. *)
Definition attempt_outcome (settled : Settled)
  : list ShortenResult + JsError :=
  match settled with
  | Rejected error => inr error
  | Resolved (Some d) =>
      if rd_success d then inl (default [] (rd_results d))
      else inr (new_Error ("Bulk upload failed: "
                           +:+ or_else (rd_error d) "Unknown error"))
  | Resolved None => inr (new_Error "Bulk upload failed: Unknown error")
  end.

(** The loop [for (attempt = 1; attempt <= MAX_RETRIES; attempt++)];
    [remaining] counts the iterations the loop condition still allows.
    The loop ends with the returned results or falls out with
    [lastError]. *)
Fixpoint retry_loop (network : nat -> Settled) (urls : list RequestUrl)
  (remaining attempt : nat) (lastError : option JsError)
  : list Event * (list ShortenResult + option JsError) :=
  match remaining with
  | O => ([], inr lastError)
  | S remaining' =>
      match attempt_outcome (network attempt) with
      | inl results => ([Post attempt urls], inl results)
      | inr error =>
          if (attempt <? MAX_RETRIES)%nat
          then
            if isRetryable error
            then
              let '(events, r) :=
                retry_loop network urls remaining' (S attempt) (Some error) in
              (Post attempt urls :: Sleep RETRY_DELAY :: events, r)
            else ([Post attempt urls], inr (Some error))
          else
            let '(events, r) :=
              retry_loop network urls remaining' (S attempt) (Some error) in
            (Post attempt urls :: events, r)
      end
  end.

Definition bulkRequest (urlMappings : list LinkMapping) : list RequestUrl :=
  (fun mapping =>
     mkRequestUrl (original_url mapping)
       (m_prospect_id (metadata mapping))
       (m_business_type (metadata mapping))
       (m_company (metadata mapping))) <$> urlMappings.

(** [bulkUploadToShortener]; [urlMappings] is [None] for an absent
    argument, [network k] is how the [k]-th request settles. *)
Definition bulkUploadToShortener (urlMappings : option (list LinkMapping))
  (network : nat -> Settled)
  : list Event * result (list ShortenResult) :=
  match urlMappings with
  | None | Some [] => ([], Throw "No URL mappings provided for bulk upload")
  | Some urlMappings =>
      let '(events, r) :=
        retry_loop network (bulkRequest urlMappings) MAX_RETRIES 1 None in
      match r with
      | inl results => (events, Ok results)
      | inr lastError =>
          (events,
           Throw ("Bulk upload failed: "
                  +:+ or_else (lastError ≫= message) "Unknown error"))
      end
  end.

(** [createFallbackResults]; [clock i] is what [Date.now()] returns for
    the [i]-th mapping. *)
Definition createFallbackResults (clock : nat -> Z)
  (urlMappings : list LinkMapping) : list ShortenResult :=
  imap (fun i mapping =>
          mkShortenResult true (original_url mapping)
            (Some (mkShortenData (original_url mapping) "original"
                     (original_url mapping)
                     (clock i + 14 * 24 * 60 * 60 * 1000)))
            (Some (metadata mapping)) true None)
    urlMappings.

(** How the probe request of [testShortenerConnection] settles. *)
Inductive Probe : Type :=
| ProbeStatus (status : Z)
| ProbeNoResponse.

(** [validateStatus: status < 500]; every rejection gives [false]. *)
Definition testShortenerConnection (probe : Probe) : bool :=
  match probe with
  | ProbeStatus status => (status <? 500)%Z
  | ProbeNoResponse => false
  end.

(** The object [validateBulkUploadResults] returns; [missing] may be
    negative. *)
Record BulkValidation : Type := mkBulkValidation {
  total_requested : nat;
  total_returned : nat;
  successful : nat;
  failed : nat;
  missing : Z;
  validation_errors : list string
}.

(** One turn of [results.forEach((result, index) => ...)]. *)
Definition validate_result (v : BulkValidation) (index : nat)
  (r : ShortenResult) : BulkValidation :=
  if success r
  then
    let same :=
      negb (fallback r)
      && match data r with
         | Some d => bool_decide (shortUrl d = r_original_url r)
         | None => false
         end in
    mkBulkValidation (total_requested v) (total_returned v)
      (S (successful v)) (failed v) (missing v)
      (if same
       then validation_errors v ++
              ["Result " +:+ toString (index + 1)
               +:+ ": Short URL is same as original URL"]
       else validation_errors v)
  else
    mkBulkValidation (total_requested v) (total_returned v)
      (successful v) (S (failed v)) (missing v)
      (validation_errors v ++
         ["Result " +:+ toString (index + 1) +:+ ": "
          +:+ or_else (r_error r) "Unknown error"]).

Fixpoint validate_from (v : BulkValidation) (index : nat)
  (results : list ShortenResult) : BulkValidation :=
  match results with
  | [] => v
  | r :: rest => validate_from (validate_result v index r) (S index) rest
  end.

Definition validateBulkUploadResults (results : list ShortenResult)
  (originalMappings : list LinkMapping) : BulkValidation :=
  let requested := length originalMappings in
  let returned := length results in
  let validation :=
    if (returned =? requested)%nat
    then mkBulkValidation requested returned 0 0 0 []
    else
      mkBulkValidation requested returned 0 0
        (Z.of_nat requested - Z.of_nat returned)
        ["Expected " +:+ toString requested +:+ " results, got "
         +:+ toString returned] in
  validate_from validation 0 results.

End BulkUploader.

(** ** message-generator.js *)

(** [config/message-templates.json]: the default bundle and the
    per-category overrides; any part of the file may be absent. *)
Record WhatsappTemplate : Type := mkWhatsappTemplate {
  greeting : option string;
  intro : option string;
  demo_section_header : option string;
  demo_link_format : option string
}.

Record Customization : Type := mkCustomization {
  c_intro : option string;
  c_demo_section_header : option string
}.

Record Templates : Type := mkTemplates {
  whatsapp : option WhatsappTemplate;
  business_type_customization : option (gmap string Customization)
}.

Record DemoUrl : Type := mkDemoUrl {
  d_display_name : string;
  d_short_url : option string
}.

(** An element of the array [generateWhatsAppMessages] returns:
    [{...prospect, whatsapp_message, demo_urls}]. *)
Record ProspectWithMessage : Type := mkProspectWithMessage {
  w_prospect : Prospect;
  whatsapp_message : string;
  demo_urls : list DemoUrl
}.

Module MessageGenerator.
Import JsString.

(** The message of the [TypeError] a property read on [undefined]
    raises. *)
Definition cannot_read (property : string) : string :=
  "Cannot read properties of undefined (reading '" +:+ property +:+ "')".

(** [String(value)] for a link's [short_url]. *)
Definition string_of_short_url (short_url : option string) : string :=
  default "null" short_url.

(** [replaceTemplateVariables] on a template string; [variables] lists
    the entries of the object in property order.  The names the callers
    pass are made of letters and underscores, so the regular expression
    built from [{name}] matches that text and nothing else. *)
Definition replaceTemplateVariables (template : string)
  (variables : list (string * string)) : string :=
  fold_left
    (fun result '(key, value) =>
       let placeholder := "{" +:+ key +:+ "}" in
       replaceAll placeholder value result)
    variables template.

(** A call of [replaceTemplateVariables] on a template read from the
    configuration: on an absent one the first [result.replace] throws
    (every caller passes at least one variable). *)
Definition fill (template : option string)
  (variables : list (string * string)) : result string :=
  match template with
  | Some template => Ok (replaceTemplateVariables template variables)
  | None => Throw (cannot_read "replace")
  end.

(** The reading of the specification: every literal [{name}] gives
    way to the value itself. *)
Definition substitute_literally (template : string)
  (variables : list (string * string)) : string :=
  fold_left
    (fun result '(key, value) =>
       replaceAllLiteral ("{" +:+ key +:+ "}") value result)
    variables template.

(** [a || b] on two optional strings. *)
Definition first_truthy (a b : option string) : option string :=
  match a with
  | Some (String c s) => Some (String c s)
  | _ => b
  end.

(** [urls.map(url => replaceTemplateVariables(...))] *)
Fixpoint map_links (demo_link_format : option string)
  (urls : list (UrlEntry (option string))) : result (list string) :=
  match urls with
  | [] => Ok []
  | url :: rest =>
      let! line :=
        fill demo_link_format
          [("display_name", u_display_name url);
           ("short_url", string_of_short_url (u_short_url url))] in
      let! lines := map_links demo_link_format rest in
      Ok (line :: lines)
  end.

(** [part && part.trim() !== ''] *)
Definition keeps_part (part : string) : bool :=
  negb (is_empty part) && negb (is_empty (trim part)).

(** The separators are the two characters backslash and [n] (and that
    pair twice): the source writes them escaped, "for CSV format". *)
Definition backslash_n : string := String "092"%char "n".

Definition generateMessageForProspect (prospect : Prospect)
  (urls : list (UrlEntry (option string))) (templates : Templates)
  : result string :=
  let baseTemplate := whatsapp templates in
  let! customizations :=
    match business_type_customization templates with
    | None => Throw (cannot_read (p_business_type prospect))
    | Some table =>
        match JsObject.get table (p_business_type prospect) with
        | JsObject.Own c => Ok c
        | JsObject.Inherited _ | JsObject.Undefined =>
            Ok (mkCustomization None None)
        end
    end in
  let! base :=
    match baseTemplate with
    | Some base => Ok base
    | None => Throw (cannot_read "greeting")
    end in
  let! greeting :=
    fill (greeting base)
      [("company", p_company prospect)] in
  let! intro :=
    fill
      (first_truthy (c_intro customizations) (intro base))
      [("business_type", p_business_type prospect);
       ("city", p_city prospect)] in
  let demoSectionHeader :=
    first_truthy (c_demo_section_header customizations)
      (demo_section_header base) in
  let! lines := map_links (demo_link_format base) urls in
  let demoLinks := join backslash_n lines in
  let messageParts := List.filter keeps_part [greeting; intro; demoLinks] in
  Ok (join (backslash_n +:+ backslash_n) messageParts).

(** The [try] block of the loop of [generateWhatsAppMessages]. *)
Definition try_block (templates : Templates)
  (groupedUrls : gmap string (ProspectGroup (option string)))
  (prospect : Prospect) : result ProspectWithMessage :=
  let! urls :=
    match JsObject.get groupedUrls (p_id prospect) with
    | JsObject.Own urlsForProspect =>
        if (length (g_urls urlsForProspect) =? 0)%nat
        then Throw ("No URLs found for prospect " +:+ p_id prospect)
        else Ok (g_urls urlsForProspect)
    | JsObject.Inherited _ | JsObject.Undefined =>
        (* nothing, or an inherited member, which has no [urls] *)
        Throw ("No URLs found for prospect " +:+ p_id prospect)
    end in
  let! message := generateMessageForProspect prospect urls templates in
  Ok (mkProspectWithMessage prospect message
        ((fun url => mkDemoUrl (u_display_name url) (u_short_url url))
           <$> urls)).

(** The loop state: [results], [successCount], [errorCount]. *)
Record LoopState : Type := mkLoopState {
  results : list ProspectWithMessage;
  successCount : nat;
  errorCount : nat
}.

(** One turn of the loop: the [try] block and its [catch] clause. *)
Definition loop_body (templates : Templates)
  (groupedUrls : gmap string (ProspectGroup (option string)))
  (st : LoopState) (prospect : Prospect) : LoopState :=
  match try_block templates groupedUrls prospect with
  | Ok record =>
      mkLoopState (results st ++ [record]) (S (successCount st))
        (errorCount st)
  | Throw message =>
      mkLoopState
        (results st ++
           [mkProspectWithMessage prospect
              ("ERROR: Could not generate message - " +:+ message) []])
        (successCount st) (S (errorCount st))
  end.

(** [generateWhatsAppMessages], once the template file has been read
    into [templates] (the read happens before the loop, outside any
    [try]). *)
Definition generateWhatsAppMessages (templates : Templates)
  (prospects : list Prospect)
  (groupedUrls : gmap string (ProspectGroup (option string)))
  : list ProspectWithMessage :=
  results (fold_left (loop_body templates groupedUrls) prospects
             (mkLoopState [] 0 0)).

End MessageGenerator.

(** ** main.js *)

Module Main.
Import BulkUploader.

(** Step 1, [parseProspectsCSV(argv.input, argv.businessType)]: the
    callee declares the single parameter [filePath], so the second
    argument is dropped. *)
Definition step1 (rows : list (gmap string string)) (businessType : string)
  : result (list (ProspectOf js_value)) :=
  CsvParser.parseProspectsCSV rows.

(** Step 3: the value of [shortenedResults]. *)
Definition step3 (skipShortener : bool) (probe : Probe)
  (network : nat -> Settled) (clock : nat -> Z)
  (urlMappings : list LinkMapping) : list ShortenResult :=
  if skipShortener then createFallbackResults clock urlMappings
  else
    let connectionOk := testShortenerConnection probe in
    if negb connectionOk then createFallbackResults clock urlMappings
    else
      match snd (bulkUploadToShortener (Some urlMappings) network) with
      | Ok shortenedResults => shortenedResults
      | Throw _ => createFallbackResults clock urlMappings
      end.

End Main.


(** ** Vocabulary of the statements *)

Module Spec.
Import JsString BulkUploader.

(** The requests and pauses of [n] attempts numbered from [first], with
    a pause of [delay] milliseconds between two attempts. *)
Fixpoint schedule (urls : list RequestUrl) (delay : Z) (first n : nat)
  : list Event :=
  match n with
  | O => []
  | S O => [Post first urls]
  | S n' => Post first urls :: Sleep delay :: schedule urls delay (S first) n'
  end.

(** The classes of error the retry policy names: a connection reset, a
    DNS failure, a timeout (by code or by message), an HTTP status from
    500 upwards (the status codes of HTTP end at 599), or HTTP 429. *)
Definition retryable_class (error : JsError) : Prop :=
  code error = Some "ECONNRESET" ∨ code error = Some "ENOTFOUND"
  ∨ code error = Some "ETIMEDOUT"
  ∨ (∃ m, message error = Some m ∧ includes "timeout" m = true)
  ∨ (∃ st, response_status error = Some st ∧ (500 <= st)%Z)
  ∨ response_status error = Some 429%Z.

(** The message an error leaves in the final [Bulk upload failed]
    error: its own, or [Unknown error] when it has none. *)
Definition carried_message (error : JsError) : string :=
  or_else (message error) "Unknown error".

(** A result that stands for a link in fallback mode. *)
Definition is_fallback_of (mapping : LinkMapping) (r : ShortenResult) : Prop :=
  success r = true
  ∧ r_original_url r = original_url mapping
  ∧ shortUrl <$> data r = Some (original_url mapping)
  ∧ fallback r = true.

(** The [shortUrl] of the last successful result that answers for the
    link [url], if there is one. *)
Definition last_answer (url : string) (shortenedResults : list ShortenResult)
  : option string :=
  fold_left
    (fun found r =>
       match success r, data r with
       | true, Some d =>
           if bool_decide (r_original_url r = url) then Some (shortUrl d)
           else found
       | _, _ => found
       end)
    shortenedResults None.

(** Some successful result answers for the link [url]. *)
Definition answered (url : string) (shortenedResults : list ShortenResult)
  : Prop :=
  ∃ r d, r ∈ shortenedResults ∧ success r = true ∧ data r = Some d
         ∧ r_original_url r = url.

(** The join as the specification words it, for the groups the joiner
    returns: every [short_url] is non-null; it is the [shortUrl] of a
    successful result for the link's [original_url] when there is such
    a result, and the link's own [original_url] when there is none. *)
Definition joined_as_specified
  (joined : gmap string (ProspectGroup js_value))
  (shortenedResults : list ShortenResult) : Prop :=
  ∀ key group url,
    joined !! key = Some group → url ∈ g_urls group →
    u_short_url url ≠ JNull
    ∧ (answered (u_original_url url) shortenedResults →
       ∃ r d, r ∈ shortenedResults ∧ success r = true ∧ data r = Some d
              ∧ r_original_url r = u_original_url url
              ∧ u_short_url url = JStr (shortUrl d))
    ∧ (¬ answered (u_original_url url) shortenedResults →
       u_short_url url = JStr (u_original_url url)).

(** What the joiner assigns to a link: the last answer when it is a
    non-empty string, the link's own [original_url] otherwise. *)
Definition joined_short_url (shortenedResults : list ShortenResult)
  (url : string) : js_value :=
  match last_answer url shortenedResults with
  | Some (String c s) => JStr (String c s)
  | _ => JStr url
  end.

(** A link after the join, against the same link before it. *)
Definition joined_link {S} (shortenedResults : list ShortenResult)
  (before : UrlEntry S) (after : UrlEntry js_value) : Prop :=
  u_original_url after = u_original_url before
  ∧ u_display_name after = u_display_name before
  ∧ u_site_index after = u_site_index before
  ∧ u_short_url after ≠ JNull
  ∧ (u_original_url before ∉ JsObject.prototype_members →
     u_short_url after
     = joined_short_url shortenedResults (u_original_url before)).

(** The record the renderer returns for a failure with a given reason. *)
Definition is_error_record (reason : string) (record : ProspectWithMessage)
  : Prop :=
  whatsapp_message record = "ERROR: Could not generate message - " +:+ reason
  ∧ startsWith "ERROR:" (whatsapp_message record) = true
  ∧ demo_urls record = [].

(** The output record of one prospect: the rendered message with the
    links used, or the error record carrying the failure reason. *)
Definition rendered_or_error (templates : Templates)
  (groupedUrls : gmap string (ProspectGroup (option string)))
  (prospect : Prospect) (record : ProspectWithMessage) : Prop :=
  w_prospect record = prospect
  ∧ match groupedUrls !! p_id prospect with
    | Some group =>
        match g_urls group with
        | [] =>
            is_error_record ("No URLs found for prospect " +:+ p_id prospect)
              record
        | urls =>
            match
              MessageGenerator.generateMessageForProspect prospect urls
                templates
            with
            | Ok message =>
                whatsapp_message record = message
                ∧ demo_urls record
                  = (fun url =>
                       mkDemoUrl (u_display_name url) (u_short_url url))
                    <$> urls
            | Throw reason => is_error_record reason record
            end
        end
    | None =>
        is_error_record ("No URLs found for prospect " +:+ p_id prospect)
          record
    end.

(** The templates with every link-list header removed, the default one
    and the overrides. *)
Definition without_headers (templates : Templates) : Templates :=
  mkTemplates
    (match whatsapp templates with
     | Some base =>
         Some (mkWhatsappTemplate (greeting base) (intro base) None
                 (demo_link_format base))
     | None => None
     end)
    (match business_type_customization templates with
     | Some table =>
         Some ((fun c => mkCustomization (c_intro c) None)
                 <$> (table : gmap string Customization))
     | None => None
     end).


(** The identifier of the prospect of input row [rowNumber]. *)
Definition prospect_id (rowNumber : nat) : string :=
  "prospect_" +:+ padStart 4 "0" (toString rowNumber).

(** Reading a run of decimal digits back as a number. *)
Definition read_number (s : string) : option nat :=
  match NilEmpty.uint_of_string s with
  | Some d => Some (Nat.of_uint d)
  | None => None
  end.

(** The three canonical categories. *)
Definition canonical (business_type : js_value) : Prop :=
  business_type = JStr "plumbing" ∨ business_type = JStr "landscaping"
  ∨ business_type = JStr "general".

(** The LinkMapping the generator makes of the [index]-th configured
    link of the prospect's category. *)
Definition generated_link `{UrlApi} (prospect : Prospect) (index : nat)
  (site : Site) (mapping : LinkMapping) : Prop :=
  UrlGenerator.createPersonalizedUrl (site_url site) (p_company prospect)
    (p_city prospect) (p_phone prospect)
  = Ok (original_url mapping)
  ∧ metadata mapping
    = mkMetadata (p_id prospect) (p_business_type prospect) index
        (site_display_name site) (p_company prospect).

(** Two prospects agree on what the links are made of. *)
Definition same_link_inputs (p p' : Prospect) : Prop :=
  p_company p' = p_company p ∧ p_city p' = p_city p
  ∧ p_phone p' = p_phone p ∧ p_business_type p' = p_business_type p.

(** The mappings of one prospect, in the order of the flat list. *)
Definition links_of (prospectId : string) (urlMappings : list LinkMapping)
  : list LinkMapping :=
  filter (λ mapping, m_prospect_id (metadata mapping) = prospectId)
    urlMappings.

(** The group of one prospect: absent when the prospect has no mapping,
    otherwise named after the first mapping and holding one link per
    mapping, in order. *)
Definition group_of (prospectId : string) (urlMappings : list LinkMapping)
  : option (ProspectGroup js_value) :=
  match links_of prospectId urlMappings with
  | [] => None
  | first :: rest =>
      Some (mkProspectGroup prospectId (m_company (metadata first))
              (m_business_type (metadata first))
              (UrlGenerator.url_entry <$> first :: rest))
  end.

(** The links the generator contributes for one prospect: its mappings,
    or none when the generation throws. *)
Definition contributed `{UrlApi}
  (businessConfig : gmap string BusinessTypeConfig) (prospect : Prospect)
  : list LinkMapping :=
  match UrlGenerator.generateUrlsForProspect prospect businessConfig with
  | Ok urlMappings => urlMappings
  | Throw _ => []
  end.

(** A template bundle with nothing missing for rendering: the default
    bundle with its greeting, introduction and link-line format, and the
    table of overrides. *)
Definition complete (templates : Templates) : Prop :=
  ∃ base table,
    whatsapp templates = Some base
    ∧ business_type_customization templates = Some table
    ∧ is_Some (greeting base) ∧ is_Some (intro base)
    ∧ is_Some (demo_link_format base).

(** The prospect has a group with at least one link. *)
Definition has_links
  (groupedUrls : gmap string (ProspectGroup (option string)))
  (prospect : Prospect) : bool :=
  match groupedUrls !! p_id prospect with
  | Some group => negb (length (g_urls group) =? 0)%nat
  | None => false
  end.

(** An identifier that names no member of [Object.prototype]. *)
Definition plain_key (k : string) : Prop := k ∉ JsObject.prototype_members.

End Spec.

(** * Properties *)

(** ** The bulk upload client *)

Section Client.
Import JsString BulkUploader Spec.

Lemma isRetryable_class (error : JsError) :
  isRetryable error = true ↔ retryable_class error.
Proof.
  unfold isRetryable, retryable_class.
  destruct error as [c m st]; simpl.
  split.
  - intros H.
    destruct c as [c|]; simpl in H.
    + destruct (bool_decide_reflect (c = "ECONNRESET")) as [->|]; [by left|].
      destruct (bool_decide_reflect (c = "ENOTFOUND")) as [->|];
        [by right; left|].
      destruct (bool_decide_reflect (c = "ETIMEDOUT")) as [->|];
        [by right; right; left|].
      simpl in H.
      destruct m as [m|]; [destruct (includes "timeout" m) eqn:Hm|];
        [right; right; right; left; eauto| |];
        (destruct st as [st|]; [|done]);
        (destruct (500 <=? st)%Z eqn:H5;
         [right; right; right; right; left; exists st; split; [done|lia]|]);
        (destruct (st =? 429)%Z eqn:H4; [|done]);
        do 5 right; f_equal; lia.
    + destruct m as [m|]; [destruct (includes "timeout" m) eqn:Hm|];
        [right; right; right; left; eauto| |];
        (destruct st as [st|]; [|done]);
        (destruct (500 <=? st)%Z eqn:H5;
         [right; right; right; right; left; exists st; split; [done|lia]|]);
        (destruct (st =? 429)%Z eqn:H4; [|done]);
        do 5 right; f_equal; lia.
  - intros [->|[->|[->|[(m' & -> & Hm)|[(st' & -> & Hst)| ->]]]]];
      try reflexivity.
    + rewrite Hm. by destruct (match c with Some _ => _ | None => _ end).
    + assert ((500 <=? st')%Z = true) as -> by lia.
      destruct (match c with Some _ => _ | None => _ end); [done|].
      by destruct (match m with Some _ => _ | None => _ end).
    + destruct (match c with Some _ => _ | None => _ end); [done|].
      by destruct (match m with Some _ => _ | None => _ end).
Qed.

Lemma retry_loop_unfold network urls remaining attempt lastError :
  retry_loop network urls (S remaining) attempt lastError =
  match attempt_outcome (network attempt) with
  | inl results => ([Post attempt urls], inl results)
  | inr error =>
      if (attempt <? MAX_RETRIES)%nat
      then
        if isRetryable error
        then
          let '(events, r) :=
            retry_loop network urls remaining (S attempt) (Some error) in
          (Post attempt urls :: Sleep RETRY_DELAY :: events, r)
        else ([Post attempt urls], inr (Some error))
      else
        let '(events, r) :=
          retry_loop network urls remaining (S attempt) (Some error) in
        (Post attempt urls :: events, r)
  end.
Proof. reflexivity. Qed.

(** C1.  A bulk shortening call on a non-empty batch makes [n] requests
    with [1 <= n <= 3], pausing 2000 ms between two of them; every
    request but the last failed with an error of a retryable class; the
    call returns the results of the last request when it succeeded, and
    otherwise the last request was the third one or failed with an error
    outside the retryable classes, and the call throws an error whose
    message carries the message of that last error. *)
Theorem bulkUpload_retry_policy (urlMappings : list LinkMapping)
  (network : nat -> Settled) (events : list Event)
  (r : result (list ShortenResult)) :
  urlMappings ≠ [] →
  bulkUploadToShortener (Some urlMappings) network = (events, r) →
  ∃ n : nat,
    (1 <= n <= 3)%nat
    ∧ events = schedule (bulkRequest urlMappings) 2000 1 n
    ∧ (∀ k, (1 <= k < n)%nat →
         ∃ error, attempt_outcome (network k) = inr error
                  ∧ retryable_class error)
    ∧ match attempt_outcome (network n) with
      | inl results => r = Ok results
      | inr error =>
          (n = 3%nat ∨ ¬ retryable_class error)
          ∧ r = Throw ("Bulk upload failed: " +:+ carried_message error)
      end.
Proof.
  intros Hne Hrun.
  destruct urlMappings as [|m ms]; [done|].
  unfold bulkUploadToShortener in Hrun.
  set (urls := bulkRequest (m :: ms)) in *.
  revert Hrun. unfold MAX_RETRIES at 1.
  rewrite retry_loop_unfold.
  destruct (attempt_outcome (network 1%nat)) as [res1|e1] eqn:H1.
  { (* the first request succeeds *)
    intros Hrun. exists 1%nat. simplify_eq. rewrite H1.
    split_and!; try lia; reflexivity. }
  change (1 <? MAX_RETRIES)%nat with true. cbv iota.
  destruct (isRetryable e1) eqn:R1.
  2:{ (* the first error is not retryable *)
    intros Hrun. exists 1%nat. simplify_eq. rewrite H1.
    split_and!; try lia; try reflexivity.
    right. rewrite <- isRetryable_class. congruence. }
  assert (retryable_class e1) as C1 by by apply isRetryable_class.
  rewrite retry_loop_unfold.
  destruct (attempt_outcome (network 2%nat)) as [res2|e2] eqn:H2.
  { intros Hrun. exists 2%nat. simplify_eq. rewrite H2.
    split_and!; try lia; try reflexivity.
    intros k Hk. assert (k = 1%nat) as -> by lia. eauto. }
  change (2 <? MAX_RETRIES)%nat with true. cbv iota.
  destruct (isRetryable e2) eqn:R2.
  2:{ intros Hrun. exists 2%nat. simplify_eq. rewrite H2.
      split_and!; try lia; try reflexivity.
      - intros k Hk. assert (k = 1%nat) as -> by lia. eauto.
      - right. rewrite <- isRetryable_class. congruence. }
  assert (retryable_class e2) as C2 by by apply isRetryable_class.
  assert (∀ k, (1 <= k < 3)%nat →
            ∃ error, attempt_outcome (network k) = inr error
                     ∧ retryable_class error) as Hbefore.
  { intros k Hk. assert (k = 1%nat ∨ k = 2%nat) as [->| ->] by lia; eauto. }
  rewrite retry_loop_unfold.
  destruct (attempt_outcome (network 3%nat)) as [res3|e3] eqn:H3;
    intros Hrun; simpl in Hrun; simplify_eq;
    exists 3%nat; rewrite H3;
    split_and!; try lia; try reflexivity; try assumption.
Qed.

(** The scenario of the specification: HTTP 503 twice, then success. *)
Lemma bulkUpload_retry_policy_witness :
  let mapping :=
    mkLinkMapping "https://demo.example/?company=Smith"
      (mkMetadata "prospect_0001" "plumbing" 0 "Demo" "Smith") in
  let answer :=
    [mkShortenResult true "https://demo.example/?company=Smith"
       (Some (mkShortenData "https://s.example/a1" "a1"
                "https://demo.example/?company=Smith" 0))
       None false None] in
  let network := fun k : nat =>
    if (k <? 3)%nat
    then Rejected (mkJsError (Some "ERR_BAD_RESPONSE")
                     (Some "Request failed with status code 503") (Some 503))
    else Resolved (Some (mkResponseData true (Some answer) None)) in
  ∃ n : nat,
    (1 <= n <= 3)%nat
    ∧ [Post 1 (bulkRequest [mapping]); Sleep 2000;
       Post 2 (bulkRequest [mapping]); Sleep 2000;
       Post 3 (bulkRequest [mapping])]
      = schedule (bulkRequest [mapping]) 2000 1 n
    ∧ (∀ k, (1 <= k < n)%nat →
         ∃ error, attempt_outcome (network k) = inr error
                  ∧ retryable_class error)
    ∧ match attempt_outcome (network n) with
      | inl results => Ok answer = Ok results
      | inr error =>
          (n = 3%nat ∨ ¬ retryable_class error)
          ∧ Ok answer
            = Throw ("Bulk upload failed: " +:+ carried_message error)
      end.
Proof.
  intros mapping answer network.
  apply (bulkUpload_retry_policy [mapping] network).
  - discriminate.
  - reflexivity.
Defined.

(** C10.  On an absent or empty list of mappings the client throws
    [No URL mappings provided for bulk upload] and has made no request
    and no pause: the batch is neither retried nor answered by the
    client with fallback results. *)
Theorem bulkUpload_rejects_empty_batch (network : nat -> Settled) :
  bulkUploadToShortener None network
  = ([], Throw "No URL mappings provided for bulk upload")
  ∧ bulkUploadToShortener (Some []) network
    = ([], Throw "No URL mappings provided for bulk upload").
Proof. split; reflexivity. Qed.

Lemma Forall2_imap {A B} (P : A → B → Prop) (f : nat → A → B) (l : list A) :
  (∀ i a, P a (f i a)) → Forall2 P l (imap f l).
Proof.
  revert f. induction l as [|a l IH]; intros f Hf; simpl.
  - constructor.
  - constructor; [apply Hf|]. apply IH. intros i b. apply Hf.
Qed.

Lemma createFallbackResults_each (clock : nat -> Z)
  (urlMappings : list LinkMapping) :
  Forall2 is_fallback_of urlMappings
    (createFallbackResults clock urlMappings).
Proof.
  apply Forall2_imap. intros i mapping. by repeat split.
Qed.

(** C2.  When shortening is skipped by configuration, or the
    connectivity probe fails, or the bulk upload throws, the results of
    the shortening step are the fallback results: one per input
    LinkMapping, in order, each with [success] true, the mapping's
    [original_url] as join key and as [data.shortUrl], and [fallback]
    true. *)
Theorem fallback_mode_wraps_every_link (skipShortener : bool)
  (probe : Probe) (network : nat -> Settled) (clock : nat -> Z)
  (urlMappings : list LinkMapping) :
  skipShortener = true
  ∨ testShortenerConnection probe = false
  ∨ (∃ message,
       snd (bulkUploadToShortener (Some urlMappings) network)
       = Throw message) →
  Main.step3 skipShortener probe network clock urlMappings
  = createFallbackResults clock urlMappings
  ∧ Forall2 is_fallback_of urlMappings
      (Main.step3 skipShortener probe network clock urlMappings).
Proof.
  intros Hmode.
  assert (Main.step3 skipShortener probe network clock urlMappings
          = createFallbackResults clock urlMappings) as Heq.
  { unfold Main.step3.
    destruct skipShortener; [reflexivity|].
    destruct (testShortenerConnection probe); [|reflexivity].
    destruct Hmode as [?|[?|[message Hthrow]]]; [done|done|].
    by rewrite Hthrow. }
  split; [exact Heq|].
  rewrite Heq. apply createFallbackResults_each.
Qed.

(** Three links, the service answering HTTP 400 to the first request. *)
Lemma fallback_mode_wraps_every_link_witness :
  let mapping := fun i : nat =>
    mkLinkMapping ("https://demo.example/" +:+ toString i)
      (mkMetadata "prospect_0001" "plumbing" i "Demo" "Smith") in
  let urlMappings := [mapping 0%nat; mapping 1%nat; mapping 2%nat] in
  let network := fun _ : nat =>
    Rejected (mkJsError (Some "ERR_BAD_REQUEST")
                (Some "Request failed with status code 400") (Some 400)) in
  let clock := fun _ : nat => 1700000000000 in
  Main.step3 false (ProbeStatus 200) network clock urlMappings
  = createFallbackResults clock urlMappings
  ∧ Forall2 is_fallback_of urlMappings
      (Main.step3 false (ProbeStatus 200) network clock urlMappings).
Proof.
  intros mapping urlMappings network clock.
  apply (fallback_mode_wraps_every_link false (ProbeStatus 200) network
           clock urlMappings).
  right; right.
  exists "Bulk upload failed: Request failed with status code 400".
  reflexivity.
Defined.

End Client.

(** ** The result joiner *)

Section Joiner.
Import JsString UrlGenerator Spec.

Lemma prototype_member_proto : "__proto__" ∈ JsObject.prototype_members.
Proof. unfold JsObject.prototype_members. set_solver. Qed.

Lemma build_lookup_from (url : string) (shortenedResults : list ShortenResult)
  (urlLookup : gmap string string) (found : option string) :
  url ≠ "__proto__" →
  urlLookup !! url = found →
  fold_left record_result shortenedResults urlLookup !! url
  = fold_left
      (fun found r =>
         match success r, data r with
         | true, Some d =>
             if bool_decide (r_original_url r = url) then Some (shortUrl d)
             else found
         | _, _ => found
         end)
      shortenedResults found.
Proof.
  intros Hproto.
  revert urlLookup found.
  induction shortenedResults as [|r rest IH]; intros urlLookup found Hfound;
    simpl; [done|].
  apply IH. unfold record_result.
  destruct (success r); [|done].
  destruct (data r) as [d|]; [|done].
  unfold JsObject.set.
  destruct (bool_decide_reflect (r_original_url r = url)) as [->|Hne].
  - case_bool_decide; [done|]. by rewrite lookup_insert_eq.
  - case_bool_decide; [done|]. by rewrite lookup_insert_ne.
Qed.

Lemma build_lookup_last_answer (url : string)
  (shortenedResults : list ShortenResult) :
  url ≠ "__proto__" →
  build_lookup shortenedResults !! url = last_answer url shortenedResults.
Proof. intros H. by apply build_lookup_from. Qed.

Lemma update_url_joined {S} (shortenedResults : list ShortenResult)
  (url : UrlEntry S) :
  joined_link shortenedResults url
    (update_url (build_lookup shortenedResults) url).
Proof.
  unfold joined_link, update_url; simpl.
  split_and!; try done.
  - unfold JsObject.get.
    destruct (build_lookup shortenedResults !! u_original_url url) as [s|];
      [by destruct (is_empty s)|].
    by case_bool_decide.
  - intros Hmember.
    assert (u_original_url url ≠ "__proto__") as Hproto.
    { intros Heq. apply Hmember. rewrite Heq. apply prototype_member_proto. }
    unfold JsObject.get, joined_short_url.
    rewrite (build_lookup_last_answer _ _ Hproto).
    destruct (last_answer (u_original_url url) shortenedResults) as [[|c s]|];
      [done|done|].
    by rewrite bool_decide_eq_false_2.
Qed.

(** C3, as the joiner has it.  The joiner returns a group for exactly
    the keys of the grouped structure it is given, with the same links
    in the same order, and every link has a non-null [short_url]; for a
    link whose [original_url] is not the name of a member inherited from
    [Object.prototype] (no URL is), the [short_url] is the [shortUrl] of
    the last successful result with that [original_url] when that
    [shortUrl] is not empty, and the link's own [original_url]
    otherwise.  The function is total: no list of results, empty or
    partial, makes the joiner throw. *)
Theorem joiner_fills_every_short_url {S}
  (groupedMappings : gmap string (ProspectGroup S))
  (shortenedResults : list ShortenResult) (key : string)
  (group : ProspectGroup S) :
  groupedMappings !! key = Some group →
  dom (updateWithShortUrls groupedMappings shortenedResults)
  = dom groupedMappings
  ∧ ∃ group',
      updateWithShortUrls groupedMappings shortenedResults !! key
      = Some group'
      ∧ g_prospect_id group' = g_prospect_id group
      ∧ Forall2 (joined_link shortenedResults) (g_urls group)
          (g_urls group').
Proof.
  intros Hgroup. unfold updateWithShortUrls. split.
  - apply dom_fmap_L.
  - rewrite lookup_fmap, Hgroup. simpl.
    eexists. split; [reflexivity|]. split; [reflexivity|]. simpl.
    induction (g_urls group) as [|url urls IH]; simpl.
    + constructor.
    + constructor; [apply update_url_joined | exact IH].
Qed.

(** One group with two links; the service answered the first link and
    did not answer the second. *)
Lemma joiner_fills_every_short_url_witness :
  let link := fun (i : nat) (name : string) =>
    mkUrlEntry ("https://demo.example/" +:+ name) name i (None : option string) in
  let group :=
    mkProspectGroup "prospect_0001" "Smith" "plumbing"
      [link 0%nat "a"; link 1%nat "b"] in
  let groupedMappings : gmap string (ProspectGroup (option string)) :=
    {["prospect_0001" := group]} in
  let shortenedResults :=
    [mkShortenResult true "https://demo.example/a"
       (Some (mkShortenData "https://s.example/1" "1"
                "https://demo.example/a" 0))
       None false None] in
  dom (updateWithShortUrls groupedMappings shortenedResults)
  = dom groupedMappings
  ∧ ∃ group',
      updateWithShortUrls groupedMappings shortenedResults !! "prospect_0001"
      = Some group'
      ∧ g_prospect_id group' = g_prospect_id group
      ∧ Forall2 (joined_link shortenedResults) (g_urls group)
          (g_urls group').
Proof.
  intros link group groupedMappings shortenedResults.
  apply (joiner_fills_every_short_url groupedMappings shortenedResults
           "prospect_0001" group).
  reflexivity.
Defined.

(** C3 as worded fails: a successful result whose [shortUrl] is the
    empty string answers for the link, and the joiner assigns the link's
    own [original_url], not that [shortUrl]. *)
Lemma joiner_ignores_empty_shortUrl :
  let group :=
    mkProspectGroup "prospect_0001" "Smith" "plumbing"
      [mkUrlEntry "https://demo.example/a" "Demo" 0%nat
         (None : option string)] in
  let shortenedResults :=
    [mkShortenResult true "https://demo.example/a"
       (Some (mkShortenData "" "a1" "https://demo.example/a" 0))
       None false None] in
  ¬ joined_as_specified
      (updateWithShortUrls {["prospect_0001" := group]} shortenedResults)
      shortenedResults.
Proof.
  intros group shortenedResults Hclaim.
  destruct (Hclaim "prospect_0001"
              (mkProspectGroup "prospect_0001" "Smith" "plumbing"
                 [mkUrlEntry "https://demo.example/a" "Demo" 0%nat
                    (JStr "https://demo.example/a")])
              (mkUrlEntry "https://demo.example/a" "Demo" 0%nat
                 (JStr "https://demo.example/a")))
    as (_ & Hhit & _).
  - reflexivity.
  - simpl. apply list_elem_of_singleton. reflexivity.
  - destruct Hhit as (r & d & Hr & _ & Hd & _ & Hshort).
    + eexists _, _. split; [apply list_elem_of_singleton; reflexivity|].
      by repeat split.
    + apply list_elem_of_singleton in Hr. subst r. simpl in Hd.
      injection Hd as <-. simpl in Hshort. discriminate Hshort.
Qed.

End Joiner.

(** ** The message renderer *)

Section Renderer.
Import JsString MessageGenerator Spec.

Lemma error_record_is_error (prospect : Prospect) (reason : string) :
  is_error_record reason
    (mkProspectWithMessage prospect
       ("ERROR: Could not generate message - " +:+ reason) []).
Proof. by repeat split. Qed.

Lemma loop_body_record (templates : Templates)
  (groupedUrls : gmap string (ProspectGroup (option string)))
  (st : LoopState) (prospect : Prospect) :
  ∃ record,
    results (loop_body templates groupedUrls st prospect)
    = results st ++ [record]
    ∧ rendered_or_error templates groupedUrls prospect record.
Proof.
  unfold loop_body, try_block, rendered_or_error, JsObject.get.
  destruct (groupedUrls !! p_id prospect) as [group|].
  - destruct (g_urls group) as [|url urls] eqn:Hurls.
    + simpl. eexists. split; [reflexivity|].
      split; [reflexivity|]. apply error_record_is_error.
    + simpl.
      destruct (generateMessageForProspect prospect (url :: urls) templates)
        as [message|reason]; simpl.
      * eexists. split; [reflexivity|]. by split.
      * eexists. split; [reflexivity|].
        split; [reflexivity|]. apply error_record_is_error.
  - case_bool_decide; simpl; eexists; (split; [reflexivity|]);
      (split; [reflexivity|]); apply error_record_is_error.
Qed.

Lemma loop_records (templates : Templates)
  (groupedUrls : gmap string (ProspectGroup (option string)))
  (prospects : list Prospect) (st : LoopState) :
  ∃ records,
    results (fold_left (loop_body templates groupedUrls) prospects st)
    = results st ++ records
    ∧ Forall2 (rendered_or_error templates groupedUrls) prospects records.
Proof.
  revert st. induction prospects as [|prospect rest IH]; intros st; simpl.
  - exists []. split; [by rewrite app_nil_r | constructor].
  - destruct (loop_body_record templates groupedUrls st prospect)
      as (record & Hstep & Hrecord).
    destruct (IH (loop_body templates groupedUrls st prospect))
      as (records & Hrest & Hrecords).
    exists (record :: records). split.
    + rewrite Hrest, Hstep, <- app_assoc. reflexivity.
    + by constructor.
Qed.

(** C4.  Whatever the prospects and the grouped links (a group may be
    missing or have no link), the renderer returns one record per
    prospect, in order, and the record of a prospect holds that prospect
    and either the rendered message with the links used, or a message
    made of [ERROR: Could not generate message - ] and the failure
    reason, with an empty link list.  (The template file is read before
    the loop; [templates] is its content.) *)
Theorem renderer_one_record_per_prospect (templates : Templates)
  (prospects : list Prospect)
  (groupedUrls : gmap string (ProspectGroup (option string))) :
  length (generateWhatsAppMessages templates prospects groupedUrls)
  = length prospects
  ∧ Forall2 (rendered_or_error templates groupedUrls) prospects
      (generateWhatsAppMessages templates prospects groupedUrls).
Proof.
  unfold generateWhatsAppMessages.
  destruct (loop_records templates groupedUrls prospects
              (mkLoopState [] 0 0)) as (records & -> & Hrecords).
  simpl. split; [|done].
  symmetry. by eapply Forall2_length.
Qed.

(** The link-list headers never reach the message: removing every header
    from the templates, the default one and the overrides, changes neither
    the message nor the error of any prospect. *)
Lemma generateMessageForProspect_ignores_headers (prospect : Prospect)
  (urls : list (UrlEntry (option string))) (templates : Templates) :
  generateMessageForProspect prospect urls (without_headers templates)
  = generateMessageForProspect prospect urls templates.
Proof.
  destruct templates as [[base|] [table|]];
    unfold generateMessageForProspect, without_headers, JsObject.get;
    simpl; try reflexivity.
  - rewrite lookup_fmap.
    by destruct (table !! p_business_type prospect) as [c|].
  - rewrite lookup_fmap.
    by destruct (table !! p_business_type prospect) as [c|].
Qed.

(** C6 at a concrete input.  With a default header and a plumbing
    override configured, the message of a plumbing prospect is the
    greeting, the introduction of the override and the two link lines,
    the parts separated by the text [\n\n] and the lines by [\n]; it
    holds neither header. *)
Theorem rendered_message_lacks_header :
  let templates :=
    mkTemplates
      (Some (mkWhatsappTemplate (Some "Hi {company}!")
               (Some "You run a {business_type} business in {city}.")
               (Some "Professional Sites:")
               (Some "* {display_name}: {short_url}")))
      (Some {["plumbing" :=
                mkCustomization (Some "Plumbers of {city}!")
                  (Some "Plumbing Sites:")]}) in
  let prospect : Prospect :=
    mkProspect "prospect_0001" "Smith Plumbing" "Austin" "(555) 123-4567"
      "plumbing" 1 in
  let urls :=
    [mkUrlEntry "https://a.example/?company=Smith+Plumbing" "Demo A" 0%nat
       (Some "https://s.example/1");
     mkUrlEntry "https://b.example/?company=Smith+Plumbing" "Demo B" 1%nat
       (Some "https://s.example/2")] in
  ∃ message,
    generateMessageForProspect prospect urls templates = Ok message
    ∧ message
      = "Hi Smith Plumbing!" +:+ backslash_n +:+ backslash_n
        +:+ "Plumbers of Austin!" +:+ backslash_n +:+ backslash_n
        +:+ "* Demo A: https://s.example/1" +:+ backslash_n
        +:+ "* Demo B: https://s.example/2"
    ∧ includes "Plumbing Sites:" message = false
    ∧ includes "Professional Sites:" message = false.
Proof.
  intros templates prospect urls. eexists.
  split; [vm_compute; reflexivity|].
  split; [vm_compute; reflexivity|].
  split; vm_compute; reflexivity.
Qed.




(** C7 at a concrete input.  For the company name [Save $$ Plumbing]
    the greeting template [Hi {company}!] is rendered with a single
    dollar sign, while the plain textual replacement keeps both. *)
Theorem substitution_expands_dollar_patterns :
  replaceTemplateVariables "Hi {company}!" [("company", "Save $$ Plumbing")]
  = "Hi Save $ Plumbing!"
  ∧ substitute_literally "Hi {company}!" [("company", "Save $$ Plumbing")]
    = "Hi Save $$ Plumbing!"
  ∧ replaceTemplateVariables "Hi {company}!"
      [("company", "Save $$ Plumbing")]
    ≠ substitute_literally "Hi {company}!"
        [("company", "Save $$ Plumbing")].
Proof. split_and!; [reflexivity|reflexivity|discriminate]. Qed.

End Renderer.

(** ** The record validator *)

Section Validator.
Import JsString CsvParser Spec.

Lemma read_number_toString (n : nat) : read_number (toString n) = Some n.
Proof.
  unfold read_number, toString.
  rewrite NilEmpty.usu. f_equal. apply Unsigned.of_to.
Qed.

Lemma read_number_zeros (k : nat) (s : string) :
  read_number (repeat_char "0" k +:+ s) = read_number s.
Proof.
  induction k as [|k IH]; [done|].
  revert IH. unfold read_number. simpl.
  destruct (NilEmpty.uint_of_string (repeat_char "0" k +:+ s)) as [d|];
    destruct (NilEmpty.uint_of_string s) as [d'|]; simpl; try done.
Qed.

Lemma append_inj_r (p a b : string) : p +:+ a = p +:+ b → a = b.
Proof.
  induction p as [|c p IH]; simpl; [done|]. intros [= H]. by apply IH.
Qed.

Lemma prospect_id_inj (m n : nat) : prospect_id m = prospect_id n → m = n.
Proof.
  unfold prospect_id. intros H%append_inj_r.
  assert (read_number (padStart 4 "0" (toString m))
          = read_number (padStart 4 "0" (toString n))) as Hread
    by by rewrite H.
  unfold padStart in Hread.
  rewrite !read_number_zeros, !read_number_toString in Hread.
  by injection Hread.
Qed.

Lemma validateAndCleanProspect_id (row : gmap string string)
  (rowNumber : nat) (prospect : ProspectOf js_value) :
  validateAndCleanProspect row rowNumber = Ok prospect →
  p_id prospect = prospect_id rowNumber
  ∧ p_original_row prospect = rowNumber.
Proof.
  unfold validateAndCleanProspect.
  destruct (0 <? length _)%nat; [done|].
  destruct (cleanCompanyName _); [|done].
  destruct (cleanCityName _); [|done].
  destruct (cleanPhoneNumber _); [|done].
  destruct (validateBusinessType _); [|done].
  simpl. intros [= <-]. done.
Qed.

(** The identifiers of a batch: each is [prospect_] and the row number
    padded to four digits, and no two prospects share one. *)
Lemma on_data_invariant (rows : list (gmap string string)) (st : ParseState) :
  NoDup (p_original_row <$> prospects st) →
  Forall (fun p => p_id p = prospect_id (p_original_row p)
                   ∧ (p_original_row p <= rowCount st)%nat) (prospects st) →
  let st' := fold_left on_data rows st in
  NoDup (p_original_row <$> prospects st')
  ∧ Forall (fun p => p_id p = prospect_id (p_original_row p)
                     ∧ (p_original_row p <= rowCount st')%nat)
      (prospects st').
Proof.
  revert st. induction rows as [|row rows IH]; intros st Hdup Hall;
    simpl; [done|].
  apply IH; unfold on_data;
    destruct (validateAndCleanProspect row (S (rowCount st)))
      as [prospect|message] eqn:Hrow; simpl.
  - apply validateAndCleanProspect_id in Hrow as [_ Hn].
    rewrite fmap_app. apply NoDup_app. split; [done|]. split.
    + intros n Hin ->%list_elem_of_singleton.
      apply list_elem_of_fmap in Hin as (p & Hp & Hin).
      rewrite Forall_forall in Hall. apply Hall in Hin as [_ Hle]. lia.
    + apply NoDup_singleton.
  - done.
  - apply validateAndCleanProspect_id in Hrow as [Hid Hn].
    apply Forall_app. split.
    + eapply Forall_impl; [exact Hall|]. simpl. intros p [? ?].
      split; [done|lia].
    + constructor; [|constructor]. rewrite Hn. split; [done|lia].
  - eapply Forall_impl; [exact Hall|]. simpl. intros p [? ?].
    split; [done|lia].
Qed.

(** The prospects of a parsed batch have pairwise distinct identifiers,
    and the identifier of each is [prospect_] followed by its row number
    padded with zeros to four digits. *)
Lemma parseProspectsCSV_ids (rows : list (gmap string string))
  (parsed : list (ProspectOf js_value)) :
  parseProspectsCSV rows = Ok parsed →
  NoDup (p_id <$> parsed)
  ∧ Forall (fun p => p_id p = prospect_id (p_original_row p)) parsed.
Proof.
  unfold parseProspectsCSV, on_end.
  destruct (on_data_invariant rows initial) as [Hdup Hall];
    [constructor|constructor|].
  destruct (length _ =? 0)%nat; [done|]. intros [= <-].
  split.
  - assert (p_id <$> prospects (fold_left on_data rows initial)
            = prospect_id
              <$> (p_original_row
                   <$> prospects (fold_left on_data rows initial))) as ->.
    { rewrite <- list_fmap_compose. apply Forall_fmap_ext_1.
      eapply Forall_impl; [exact Hall|]. by intros p [? _]. }
    assert (Inj (=) (=) prospect_id) as Hinj
      by (intros m n; apply prospect_id_inj).
    by apply (NoDup_fmap_2 prospect_id).
  - eapply Forall_impl; [exact Hall|]. by intros p [? _].
Qed.

(** What [validateBusinessType] can return: a canonical category, or a
    member inherited from [Object.prototype] whose name is the trimmed,
    lower-cased input. *)
Lemma validateBusinessType_returns (businessType : option string)
  (v : js_value) :
  validateBusinessType businessType = Ok v →
  canonical v
  ∨ ∃ name, v = JInherited name
            ∧ name ∈ JsObject.prototype_members
            ∧ name = toLowerCase (trim (default EmptyString businessType)).
Proof.
  unfold validateBusinessType.
  destruct (is_blank businessType); [done|].
  case_bool_decide as Hvalid.
  { intros [= <-]. left. unfold validTypes in Hvalid.
    rewrite !elem_of_cons, elem_of_nil in Hvalid.
    unfold canonical.
    destruct Hvalid as [->|[->|[->|[]]]]; auto. }
  unfold JsObject.get.
  destruct (corrections !! _) as [c|] eqn:Hc.
  - destruct (is_empty c); [done|]. intros [= <-]. left.
    unfold corrections in Hc.
    apply elem_of_list_to_map_2 in Hc.
    rewrite !elem_of_cons, elem_of_nil in Hc.
    unfold canonical.
    repeat (destruct Hc as [[= _ <-]|Hc]; [auto|]).
    destruct Hc.
  - case_bool_decide as Hmember; [|done].
    intros [= <-]. right. eauto.
Qed.

(** A row with a missing or blank required column is rejected with a
    message that lists the missing columns, all of them, in the order
    company, city, phone, business_type. *)
Lemma missing_fields_rejected (row : gmap string string) (rowNumber : nat)
  (field : string) :
  field ∈ requiredFields → is_missing row field = true →
  ∃ missing,
    validateAndCleanProspect row rowNumber
    = Throw ("Missing required fields: " +:+ join ", " missing)
    ∧ field ∈ missing
    ∧ ∀ f, f ∈ missing ↔ f ∈ requiredFields ∧ is_missing row f = true.
Proof.
  intros Hfield Hmissing.
  exists (List.filter (is_missing row) requiredFields).
  assert (∀ f, f ∈ List.filter (is_missing row) requiredFields
               ↔ f ∈ requiredFields ∧ is_missing row f = true) as Hfilter.
  { intros f. rewrite !list_elem_of_In, filter_In. done. }
  split_and!; [|by apply Hfilter|done].
  unfold validateAndCleanProspect.
  destruct (List.filter (is_missing row) requiredFields) as [|f fs] eqn:Hfs;
    [|done].
  exfalso. eapply not_elem_of_nil, Hfilter. eauto.
Qed.

(** C5 at a concrete input.  A row whose [business_type] cell is blank,
    and a row without that column, are rejected for the missing field
    whatever fallback type the caller passes, and a batch made of such
    rows fails for want of a valid prospect. *)
Theorem fallback_type_is_not_applied (businessType : string) :
  let blank : gmap string string :=
    list_to_map [("company", "Quick Fix"); ("city", "Denver");
                 ("phone", "303-555-0123"); ("business_type", "")] in
  let absent : gmap string string :=
    list_to_map [("company", "Fast Repairs"); ("city", "Miami");
                 ("phone", "305-555-0123")] in
  validateAndCleanProspect blank 1
  = Throw "Missing required fields: business_type"
  ∧ validateAndCleanProspect absent 2
    = Throw "Missing required fields: business_type"
  ∧ Main.step1 [blank; absent] businessType
    = Throw "No valid prospects found in CSV file".
Proof. split_and!; reflexivity. Qed.

(** C9 at a concrete input.  For the cell [constructor] the validator
    returns a prospect whose [business_type] is the member
    [Object.prototype.constructor], which is none of the three
    categories. *)
Theorem inherited_member_passes_for_business_type :
  let row : gmap string string :=
    list_to_map [("company", "Acme Services"); ("city", "Austin");
                 ("phone", "(555) 123-4567");
                 ("business_type", "constructor")] in
  validateAndCleanProspect row 1
  = Ok (mkProspect "prospect_0001" "Acme Services" "Austin"
          "(555) 123-4567" (JInherited "constructor") 1)
  ∧ ¬ canonical (JInherited "constructor").
Proof.
  split; [reflexivity|].
  unfold canonical. intros [H|[H|H]]; discriminate H.
Qed.

End Validator.

(** ** The link generator *)

Section LinkGenerator.
Import JsString UrlGenerator Spec.
Context `{api : UrlApi}.

Lemma forEach_site_links (prospect : Prospect) (configured : list Site)
  (index : nat) (urlMappings result : list LinkMapping) :
  forEach_site prospect configured index urlMappings = Ok result →
  ∃ new,
    result = urlMappings ++ new
    ∧ length new = length configured
    ∧ ∀ i site,
        configured !! i = Some site →
        ∃ mapping, new !! i = Some mapping
                   ∧ generated_link prospect (index + i) site mapping.
Proof.
  revert index urlMappings.
  induction configured as [|site rest IH]; intros index urlMappings; simpl.
  - intros [= <-]. exists []. rewrite app_nil_r. by split_and!.
  - destruct (createPersonalizedUrl _ _ _ _) as [url|] eqn:Hurl; [|done].
    simpl. intros (new & -> & Hlen & Hnew)%IH.
    eexists (_ :: new). split; [by rewrite <- app_assoc|].
    split; [simpl; by rewrite Hlen|].
    intros [|i] site' Hsite; simpl in *.
    + injection Hsite as <-. eexists. split; [reflexivity|].
      split; simpl; [done|]. by rewrite Nat.add_0_r.
    + destruct (Hnew i site' Hsite) as (mapping & Hi & Hlink & Hmeta).
      exists mapping. split; [done|]. split; [done|].
      rewrite Hmeta. f_equal. lia.
Qed.

Lemma generateUrlsForProspect_links (prospect : Prospect)
  (businessConfig : gmap string BusinessTypeConfig)
  (urlMappings : list LinkMapping) :
  generateUrlsForProspect prospect businessConfig = Ok urlMappings →
  ∃ config configured,
    businessConfig !! p_business_type prospect = Some config
    ∧ sites config = Some configured
    ∧ length urlMappings = length configured
    ∧ ∀ index site,
        configured !! index = Some site →
        ∃ mapping, urlMappings !! index = Some mapping
                   ∧ generated_link prospect index site mapping.
Proof.
  unfold generateUrlsForProspect, JsObject.get.
  destruct (businessConfig !! p_business_type prospect) as [config|];
    [|by case_bool_decide].
  destruct (sites config) as [[|site rest]|] eqn:Hsites; [done| |done].
  intros (new & -> & Hlen & Hnew)%forEach_site_links.
  exists config, (site :: rest). by split_and!.
Qed.

Lemma same_inputs_same_urls (prospect prospect' : Prospect)
  (businessConfig : gmap string BusinessTypeConfig)
  (urlMappings urlMappings' : list LinkMapping) :
  same_link_inputs prospect prospect' →
  generateUrlsForProspect prospect businessConfig = Ok urlMappings →
  generateUrlsForProspect prospect' businessConfig = Ok urlMappings' →
  original_url <$> urlMappings' = original_url <$> urlMappings.
Proof.
  intros (Hcompany & Hcity & Hphone & Htype)
    (config & configured & Hconfig & Hsites & Hlen & Hlinks)
      %generateUrlsForProspect_links
    (config' & configured' & Hconfig' & Hsites' & Hlen' & Hlinks')
      %generateUrlsForProspect_links.
  rewrite Htype, Hconfig in Hconfig'. injection Hconfig' as <-.
  rewrite Hsites in Hsites'. injection Hsites' as <-.
  apply list_eq. intros i. rewrite !list_lookup_fmap.
  destruct (configured !! i) as [site|] eqn:Hsite.
  - destruct (Hlinks i site Hsite) as (m & -> & Hurl & _).
    destruct (Hlinks' i site Hsite) as (m' & -> & Hurl' & _).
    rewrite Hcompany, Hcity, Hphone, Hurl in Hurl'. simpl.
    by injection Hurl' as <-.
  - apply lookup_ge_None in Hsite.
    rewrite (lookup_ge_None_2 urlMappings), (lookup_ge_None_2 urlMappings');
      [done|lia|lia].
Qed.

(** C8.  When the generator returns the links of a prospect, they are
    one per link configured for the prospect's category, in the
    configured order: the link at position [index] has the URL built
    from the base URL of the [index]-th configured link and the
    prospect's company, city and phone, and carries [index] as
    [site_index].  A second run on the same prospect and configuration
    returns the same [original_url] sequence, and so does a run on any
    prospect with the same company, city, phone and category: the URLs
    depend on nothing else. *)
Theorem link_generation_deterministic (prospect : Prospect)
  (businessConfig : gmap string BusinessTypeConfig)
  (urlMappings : list LinkMapping) :
  generateUrlsForProspect prospect businessConfig = Ok urlMappings →
  (∃ config configured,
     businessConfig !! p_business_type prospect = Some config
     ∧ sites config = Some configured
     ∧ length urlMappings = length configured
     ∧ ∀ index site,
         configured !! index = Some site →
         ∃ mapping, urlMappings !! index = Some mapping
                    ∧ generated_link prospect index site mapping)
  ∧ (∀ again,
       generateUrlsForProspect prospect businessConfig = Ok again →
       original_url <$> again = original_url <$> urlMappings)
  ∧ (∀ prospect' urlMappings',
       same_link_inputs prospect prospect' →
       generateUrlsForProspect prospect' businessConfig = Ok urlMappings' →
       original_url <$> urlMappings' = original_url <$> urlMappings).
Proof.
  intros Hrun. split_and!.
  - by apply generateUrlsForProspect_links.
  - intros again Hagain. by eapply same_inputs_same_urls.
  - intros prospect' urlMappings' Hsame Hrun'.
    by eapply same_inputs_same_urls.
Qed.

End LinkGenerator.

(** Four links configured for plumbing and one plumbing prospect. *)
Lemma link_generation_deterministic_witness :
  let prospect : Prospect :=
    mkProspect "prospect_0001" "Smith" "Austin" "5551234567" "plumbing" 1 in
  let businessConfig : gmap string BusinessTypeConfig :=
    {["plumbing" :=
        mkBusinessTypeConfig
          (Some [mkSite "https://one.example/" "Emergency Services Demo";
                 mkSite "https://two.example/" "Modern Design Example";
                 mkSite "https://three.example/" "Customer Reviews Showcase";
                 mkSite "https://four.example/" "Professional Portfolio"])]} in
  ∃ urlMappings,
    UrlGenerator.generateUrlsForProspect (api := SampleUrl.api) prospect
      businessConfig = Ok urlMappings
    ∧ original_url <$> urlMappings
      = ["https://one.example/?company=Smith&city=Austin&phone=5551234567";
         "https://two.example/?company=Smith&city=Austin&phone=5551234567";
         "https://three.example/?company=Smith&city=Austin&phone=5551234567";
         "https://four.example/?company=Smith&city=Austin&phone=5551234567"]
    ∧ (m_site_index ∘ metadata) <$> urlMappings = [0; 1; 2; 3]%nat
    ∧ ((∃ config configured,
          businessConfig !! p_business_type prospect = Some config
          ∧ sites config = Some configured
          ∧ length urlMappings = length configured
          ∧ ∀ index site,
              configured !! index = Some site →
              ∃ mapping,
                urlMappings !! index = Some mapping
                ∧ Spec.generated_link (H := SampleUrl.api) prospect index site
                    mapping)
       ∧ (∀ again,
            UrlGenerator.generateUrlsForProspect (api := SampleUrl.api)
              prospect businessConfig = Ok again →
            original_url <$> again = original_url <$> urlMappings)
       ∧ (∀ prospect' urlMappings',
            Spec.same_link_inputs prospect prospect' →
            UrlGenerator.generateUrlsForProspect (api := SampleUrl.api)
              prospect' businessConfig = Ok urlMappings' →
            original_url <$> urlMappings' = original_url <$> urlMappings)).
Proof.
  intros prospect businessConfig.
  eexists. split; [reflexivity|].
  split; [reflexivity|]. split; [reflexivity|].
  apply (link_generation_deterministic (api := SampleUrl.api) prospect
           businessConfig).
  reflexivity.
Defined.

(** * Further properties of the code *)

(** ** The bulk upload client, continued *)

Section ClientOutcome.
Import JsString BulkUploader Spec.

Lemma retryable_class_true (error : JsError) :
  retryable_class error → isRetryable error = true.
Proof. apply isRetryable_class. Qed.

Lemma retryable_class_false (error : JsError) :
  ¬ retryable_class error → isRetryable error = false.
Proof.
  intros Hnot. destruct (isRetryable error) eqn:H; [|done].
  by apply isRetryable_class in H.
Qed.

(** The outcome of a call is fixed by the first request that succeeds,
    fails with an error outside the retryable classes, or is the third:
    when the requests before the [n]-th fail with retryable errors, the
    client makes exactly [n] requests with a pause of 2000 ms between two
    of them and returns the results of the [n]-th, or throws with the
    message of its error. *)
Theorem bulkUpload_outcome_determined (urlMappings : list LinkMapping)
  (network : nat -> Settled) (n : nat) :
  urlMappings ≠ [] →
  (1 <= n <= 3)%nat →
  (∀ k, (1 <= k < n)%nat →
     ∃ error, attempt_outcome (network k) = inr error
              ∧ retryable_class error) →
  match attempt_outcome (network n) with
  | inl _ => True
  | inr error => n = 3%nat ∨ ¬ retryable_class error
  end →
  bulkUploadToShortener (Some urlMappings) network
  = (schedule (bulkRequest urlMappings) 2000 1 n,
     match attempt_outcome (network n) with
     | inl results => Ok results
     | inr error =>
         Throw ("Bulk upload failed: " +:+ carried_message error)
     end).
Proof.
  intros Hne Hn Hbefore Hlast.
  destruct urlMappings as [|m ms]; [done|].
  unfold bulkUploadToShortener.
  set (urls := bulkRequest (m :: ms)).
  unfold MAX_RETRIES at 1. rewrite retry_loop_unfold.
  change (1 <? MAX_RETRIES)%nat with true. cbv iota.
  destruct (decide (n = 1%nat)) as [->|Hn1].
  { destruct (attempt_outcome (network 1%nat)) as [res|e]; [done|].
    destruct Hlast as [?|Hnot]; [done|].
    by rewrite (retryable_class_false _ Hnot). }
  destruct (Hbefore 1%nat) as (e1 & -> & R1%retryable_class_true); [lia|].
  rewrite R1, retry_loop_unfold.
  change (2 <? MAX_RETRIES)%nat with true. cbv iota.
  destruct (decide (n = 2%nat)) as [->|Hn2].
  { destruct (attempt_outcome (network 2%nat)) as [res|e]; [done|].
    destruct Hlast as [?|Hnot]; [done|].
    by rewrite (retryable_class_false _ Hnot). }
  destruct (Hbefore 2%nat) as (e2 & -> & R2%retryable_class_true); [lia|].
  rewrite R2, retry_loop_unfold.
  assert (n = 3%nat) as -> by lia.
  by destruct (attempt_outcome (network 3%nat)) as [res|e].
Qed.

(** A reset connection, then HTTP 404: the second request ends the call. *)
Lemma bulkUpload_outcome_determined_witness :
  let mapping :=
    mkLinkMapping "https://demo.example/?company=Smith"
      (mkMetadata "prospect_0001" "plumbing" 0 "Demo" "Smith") in
  let network := fun k : nat =>
    if (k <? 2)%nat
    then Rejected (mkJsError (Some "ECONNRESET") (Some "socket hang up") None)
    else Rejected (mkJsError (Some "ERR_BAD_REQUEST")
                     (Some "Request failed with status code 404")
                     (Some 404)) in
  bulkUploadToShortener (Some [mapping]) network
  = ([Post 1 (bulkRequest [mapping]); Sleep 2000;
      Post 2 (bulkRequest [mapping])],
     Throw "Bulk upload failed: Request failed with status code 404").
Proof.
  intros mapping network.
  apply (bulkUpload_outcome_determined [mapping] network 2).
  - discriminate.
  - lia.
  - intros k Hk. assert (k = 1%nat) as -> by lia.
    eexists. split; [reflexivity|]. by left.
  - right. rewrite <- isRetryable_class. simpl. discriminate.
Defined.

Lemma validate_from_counts (results : list ShortenResult)
  (v : BulkValidation) (index : nat) :
  let v' := validate_from v index results in
  total_requested v' = total_requested v
  ∧ total_returned v' = total_returned v
  ∧ missing v' = missing v
  ∧ successful v'
    = (successful v + length (filter (λ r, success r = true) results))%nat
  ∧ failed v'
    = (failed v + length (filter (λ r, success r = false) results))%nat.
Proof.
  revert v index. induction results as [|r rest IH]; intros v index; simpl.
  - split_and!; try done; lia.
  - destruct (IH (validate_result v index r) (S index))
      as (-> & -> & -> & -> & ->).
    unfold validate_result. rewrite !filter_cons.
    destruct (success r); simpl;
      repeat case_decide; try done; simpl; split_and!; try done; lia.
Qed.

(** [validateBulkUploadResults] counts every returned result once, as
    successful or as failed: [successful] is the number of results with
    [success] true, [failed] the number of the others, and together they
    make [total_returned], the length of the result list. *)
Theorem bulk_validation_counts (results : list ShortenResult)
  (originalMappings : list LinkMapping) :
  let v := validateBulkUploadResults results originalMappings in
  total_requested v = length originalMappings
  ∧ total_returned v = length results
  ∧ successful v = length (filter (λ r, success r = true) results)
  ∧ failed v = length (filter (λ r, success r = false) results)
  ∧ (successful v + failed v)%nat = total_returned v
  ∧ missing v = Z.of_nat (length originalMappings) - Z.of_nat (length results).
Proof.
  unfold validateBulkUploadResults.
  match goal with
  | |- context [validate_from ?v0 0 results] =>
      destruct (validate_from_counts results v0 0)
        as (Hreq & Hret & Hmiss & Hs & Hf)
  end.
  cbv zeta. rewrite Hreq, Hret, Hmiss, Hs, Hf.
  assert (length (filter (λ r, success r = true) results)
          + length (filter (λ r, success r = false) results)
          = length results)%nat as Hsum.
  { clear. induction results as [|r rest IH]; [done|].
    rewrite !filter_cons. destruct (success r); simpl;
      repeat case_decide; try done; simpl; lia. }
  destruct (Nat.eqb_spec (length results) (length originalMappings));
    simpl; split_and!; try done; lia.
Qed.

Lemma validate_from_fallback (results : list ShortenResult)
  (v : BulkValidation) (index : nat) :
  Forall (λ r, success r = true ∧ fallback r = true) results →
  validate_from v index results
  = mkBulkValidation (total_requested v) (total_returned v)
      (successful v + length results) (failed v) (missing v)
      (validation_errors v).
Proof.
  intros Hall. revert v index.
  induction Hall as [|r rest [Hs Hf] _ IH]; intros v index; simpl.
  - destruct v. simpl. by rewrite Nat.add_0_r.
  - rewrite IH. unfold validate_result. rewrite Hs, Hf. simpl.
    f_equal. lia.
Qed.

(** The fallback results pass the validation without a remark: for every
    list of mappings all results count as successful, none as failed or
    missing, and no error is recorded (not even the warning that a short
    URL equals its original). *)
Theorem fallback_results_validate_clean (clock : nat -> Z)
  (urlMappings : list LinkMapping) :
  validateBulkUploadResults (createFallbackResults clock urlMappings)
    urlMappings
  = mkBulkValidation (length urlMappings) (length urlMappings)
      (length urlMappings) 0 0 [].
Proof.
  unfold validateBulkUploadResults.
  assert (length (createFallbackResults clock urlMappings)
          = length urlMappings) as Hlen.
  { symmetry. eapply Forall2_length, createFallbackResults_each. }
  rewrite Hlen, Nat.eqb_refl.
  rewrite validate_from_fallback; [simpl; by rewrite Hlen|].
  pose proof (createFallbackResults_each clock urlMappings) as Heach.
  induction Heach as [|m r ms rs (Hs & _ & _ & Hf) _ IH]; constructor; auto.
Qed.

End ClientOutcome.

(** ** The record validator, continued *)

Section Cleaning.
Import JsString CsvParser Spec.

Lemma trimEnd_idempotent (s : string) : trimEnd (trimEnd s) = trimEnd s.
Proof.
  induction s as [|c s IH]; [done|]. simpl.
  destruct (is_space c && is_empty (trimEnd s)) eqn:H; [done|].
  simpl. by rewrite IH, H.
Qed.

Lemma trimStart_trimEnd (s : string) :
  trimStart s = s → trimStart (trimEnd s) = trimEnd s.
Proof.
  destruct s as [|c s]; [done|]. simpl.
  destruct (is_space c) eqn:Hc.
  - intros H. exfalso.
    assert (String.length (trimStart s) <= String.length s)%nat as Hle.
    { clear. induction s as [|c s IH]; simpl; [lia|].
      destruct (is_space c); simpl; lia. }
    rewrite H in Hle. simpl in Hle. lia.
  - intros _. simpl. by rewrite Hc.
Qed.

Lemma trimStart_idempotent (s : string) : trimStart (trimStart s) = trimStart s.
Proof.
  induction s as [|c s IH]; [done|]. simpl.
  destruct (is_space c) eqn:Hc; [done|]. simpl. by rewrite Hc.
Qed.

Lemma trim_idempotent (s : string) : trim (trim s) = trim s.
Proof.
  unfold trim.
  rewrite trimStart_trimEnd by apply trimStart_idempotent.
  apply trimEnd_idempotent.
Qed.

Lemma collapse_from_true_head (s : string) :
  trimStart (collapse_from true s) = collapse_from true s.
Proof.
  induction s as [|c s IH]; [done|]. simpl.
  destruct (is_space c) eqn:Hc; [done|]. simpl. by rewrite Hc.
Qed.

Lemma collapse_from_any (b : bool) (s : string) :
  trimStart s = s → collapse_from b s = collapse_from false s.
Proof.
  destruct b; [|done]. destruct s as [|c s]; [done|]. simpl.
  destruct (is_space c) eqn:Hc; [|done].
  intros H. exfalso.
  assert (String.length (trimStart s) <= String.length s)%nat as Hle.
  { clear. induction s as [|c s IH]; simpl; [lia|].
    destruct (is_space c); simpl; lia. }
  rewrite H in Hle. simpl in Hle. lia.
Qed.

Lemma collapse_from_idempotent (b : bool) (s : string) :
  collapse_from false (collapse_from b s) = collapse_from b s.
Proof.
  revert b. induction s as [|c s IH]; intros b; [by destruct b|]. simpl.
  destruct (is_space c) eqn:Hc.
  - destruct b; [apply IH|]. simpl.
    rewrite (collapse_from_any true) by apply collapse_from_true_head.
    by rewrite IH.
  - simpl. by rewrite Hc, IH.
Qed.

Lemma collapse_from_nonempty (b : bool) (s : string) :
  trimEnd s = s → is_empty s = false → is_empty (collapse_from b s) = false.
Proof.
  revert b. induction s as [|c s IH]; intros b; [done|]. simpl.
  destruct (is_space c) eqn:Hc; simpl; [|done].
  destruct (is_empty (trimEnd s)) eqn:He; [done|].
  intros [= Hs] _. rewrite Hs in He.
  destruct b; [by apply IH|done].
Qed.

Lemma trimEnd_collapse_from (b : bool) (s : string) :
  trimEnd s = s → trimEnd (collapse_from b s) = collapse_from b s.
Proof.
  revert b. induction s as [|c s IH]; intros b; [done|]. simpl.
  destruct (is_space c) eqn:Hc; simpl.
  - destruct (is_empty (trimEnd s)) eqn:He; [done|].
    intros [= Hs]. rewrite Hs in He.
    destruct b; [by apply IH|]. simpl.
    rewrite (IH true Hs), (collapse_from_nonempty true s Hs He). done.
  - intros [= Hs]. by rewrite Hc, (IH false Hs).
Qed.

Lemma trimStart_collapse_from (s : string) :
  trimStart s = s → trimStart (collapse_from false s) = collapse_from false s.
Proof.
  destruct s as [|c s]; [done|]. simpl.
  destruct (is_space c) eqn:Hc; simpl.
  - intros H. exfalso.
    assert (String.length (trimStart s) <= String.length s)%nat as Hle.
    { clear. induction s as [|c s IH]; simpl; [lia|].
      destruct (is_space c); simpl; lia. }
    rewrite H in Hle. simpl in Hle. lia.
  - by rewrite Hc.
Qed.

(** A cleaned name is already clean: trimming it and collapsing its white
    space change nothing. *)
Lemma clean_name_fixed (s : string) :
  let cleaned := collapse_spaces (trim s) in
  trim cleaned = cleaned ∧ collapse_spaces cleaned = cleaned.
Proof.
  unfold collapse_spaces. split.
  - assert (trimStart (trim s) = trim s) as Hstart.
    { unfold trim. apply trimStart_trimEnd, trimStart_idempotent. }
    assert (trimEnd (trim s) = trim s) as Hend
      by apply trimEnd_idempotent.
    unfold trim at 1.
    rewrite (trimStart_collapse_from _ Hstart).
    by apply trimEnd_collapse_from.
  - apply collapse_from_idempotent.
Qed.

Lemma is_empty_length (s : string) :
  is_empty s = (String.length s =? 0)%nat.
Proof. by destruct s. Qed.

Lemma not_blank_inv (x : option string) :
  is_blank x = false →
  ∃ v, x = Some v ∧ is_empty (trim v) = false.
Proof.
  destruct x as [v|]; [|done]. simpl.
  rewrite <- is_empty_length. intros [_ H]%orb_false_elim. eauto.
Qed.

Lemma cleaned_not_blank (s : string) :
  is_empty (trim s) = false →
  is_blank (Some (collapse_spaces (trim s))) = false.
Proof.
  intros Hs. simpl. rewrite <- is_empty_length.
  destruct (clean_name_fixed s) as [-> _].
  assert (is_empty (collapse_spaces (trim s)) = false) as ->; [|done].
  apply collapse_from_nonempty; [|done]. apply trimEnd_idempotent.
Qed.

Lemma cleanCompanyName_inv (x : option string) (cleaned : string) :
  cleanCompanyName x = Ok cleaned →
  ∃ v, x = Some v ∧ is_empty (trim v) = false
       ∧ cleaned = collapse_spaces (trim v)
       ∧ (String.length cleaned <= 100)%nat.
Proof.
  unfold cleanCompanyName.
  destruct (is_blank x) eqn:Hblank; [done|].
  apply not_blank_inv in Hblank as (v & -> & Hv). simpl.
  destruct (Nat.ltb_spec 100 (String.length (collapse_spaces (trim v))));
    [done|].
  intros [= <-]. eauto.
Qed.

Lemma cleanCityName_inv (x : option string) (cleaned : string) :
  cleanCityName x = Ok cleaned →
  ∃ v, x = Some v ∧ is_empty (trim v) = false
       ∧ cleaned = collapse_spaces (trim v)
       ∧ (String.length cleaned <= 50)%nat.
Proof.
  unfold cleanCityName.
  destruct (is_blank x) eqn:Hblank; [done|].
  apply not_blank_inv in Hblank as (v & -> & Hv). simpl.
  destruct (Nat.ltb_spec 50 (String.length (collapse_spaces (trim v))));
    [done|].
  intros [= <-]. eauto.
Qed.

Lemma cleanPhoneNumber_inv (x : option string) (cleaned : string) :
  cleanPhoneNumber x = Ok cleaned →
  ∃ v, x = Some v ∧ is_empty (trim v) = false
       ∧ cleaned = trim v
       ∧ (10 <= String.length (digits cleaned))%nat.
Proof.
  unfold cleanPhoneNumber.
  destruct (is_blank x) eqn:Hblank; [done|].
  apply not_blank_inv in Hblank as (v & -> & Hv). simpl.
  destruct (Nat.ltb_spec (String.length (digits (trim v))) 10); [done|].
  intros [= <-]. eauto.
Qed.

Lemma validateAndCleanProspect_inv (row : gmap string string)
  (rowNumber : nat) (prospect : ProspectOf js_value) :
  validateAndCleanProspect row rowNumber = Ok prospect →
  cleanCompanyName (row !! "company") = Ok (p_company prospect)
  ∧ cleanCityName (row !! "city") = Ok (p_city prospect)
  ∧ cleanPhoneNumber (row !! "phone") = Ok (p_phone prospect)
  ∧ validateBusinessType (row !! "business_type")
    = Ok (p_business_type prospect).
Proof.
  unfold validateAndCleanProspect.
  destruct (0 <? length _)%nat; [done|].
  destruct (cleanCompanyName _); [|done].
  destruct (cleanCityName _); [|done].
  destruct (cleanPhoneNumber _); [|done].
  destruct (validateBusinessType _); [|done].
  simpl. by intros [= <-].
Qed.

(** The text fields of a validated prospect are within their bounds and
    derived from the row as follows: company and city are the cells
    trimmed with every run of white space collapsed to one space, between
    1 and 100 (company) or 50 (city) characters long; the phone is the
    trimmed cell with its punctuation kept, holding at least 10 digits. *)
Theorem validated_prospect_fields (row : gmap string string)
  (rowNumber : nat) (prospect : ProspectOf js_value) :
  validateAndCleanProspect row rowNumber = Ok prospect →
  ∃ company city phone,
    row !! "company" = Some company
    ∧ row !! "city" = Some city
    ∧ row !! "phone" = Some phone
    ∧ p_company prospect = collapse_spaces (trim company)
    ∧ (1 <= String.length (p_company prospect) <= 100)%nat
    ∧ p_city prospect = collapse_spaces (trim city)
    ∧ (1 <= String.length (p_city prospect) <= 50)%nat
    ∧ p_phone prospect = trim phone
    ∧ (10 <= String.length (digits (p_phone prospect)))%nat.
Proof.
  intros (Hcompany & Hcity & Hphone & _)%validateAndCleanProspect_inv.
  apply cleanCompanyName_inv in Hcompany as (company & Hc1 & Hc2 & Hc3 & Hc4).
  apply cleanCityName_inv in Hcity as (city & Hy1 & Hy2 & Hy3 & Hy4).
  apply cleanPhoneNumber_inv in Hphone as (phone & Hp1 & Hp2 & Hp3 & Hp4).
  exists company, city, phone.
  assert (∀ s, is_empty (trim s) = false →
               (1 <= String.length (collapse_spaces (trim s)))%nat) as Hpos.
  { intros s Hs.
    pose proof (collapse_from_nonempty false (trim s)
                  (trimEnd_idempotent _) Hs) as Hne.
    unfold collapse_spaces. rewrite is_empty_length in Hne.
    apply Nat.eqb_neq in Hne. lia. }
  split_and!; try done.
  - rewrite Hc3. by apply Hpos.
  - rewrite Hy3. by apply Hpos.
Qed.

Lemma validated_prospect_fields_witness :
  let row : gmap string string :=
    list_to_map [("company", "  Smith   Plumbing "); ("city", "Austin");
                 ("phone", " (555) 123-4567"); ("business_type", "Plumber")] in
  let prospect :=
    mkProspect "prospect_0007" "Smith Plumbing" "Austin" "(555) 123-4567"
      (JStr "plumbing") 7 in
  ∃ company city phone,
    row !! "company" = Some company
    ∧ row !! "city" = Some city
    ∧ row !! "phone" = Some phone
    ∧ p_company prospect = collapse_spaces (trim company)
    ∧ (1 <= String.length (p_company prospect) <= 100)%nat
    ∧ p_city prospect = collapse_spaces (trim city)
    ∧ (1 <= String.length (p_city prospect) <= 50)%nat
    ∧ p_phone prospect = trim phone
    ∧ (10 <= String.length (digits (p_phone prospect)))%nat.
Proof.
  intros row prospect.
  apply (validated_prospect_fields row 7 prospect). reflexivity.
Defined.

(** Cleaning is idempotent: the company, city and phone of a validated
    prospect pass their cleaning functions again and come out unchanged. *)
Theorem cleaned_fields_stay_clean (row : gmap string string)
  (rowNumber : nat) (prospect : ProspectOf js_value) :
  validateAndCleanProspect row rowNumber = Ok prospect →
  cleanCompanyName (Some (p_company prospect)) = Ok (p_company prospect)
  ∧ cleanCityName (Some (p_city prospect)) = Ok (p_city prospect)
  ∧ cleanPhoneNumber (Some (p_phone prospect)) = Ok (p_phone prospect).
Proof.
  intros (Hcompany & Hcity & Hphone & _)%validateAndCleanProspect_inv.
  apply cleanCompanyName_inv in Hcompany as (company & _ & Hc2 & Hc3 & Hc4).
  apply cleanCityName_inv in Hcity as (city & _ & Hy2 & Hy3 & Hy4).
  apply cleanPhoneNumber_inv in Hphone as (phone & _ & Hp2 & Hp3 & Hp4).
  split_and!.
  - unfold cleanCompanyName. rewrite Hc3 in *.
    rewrite (cleaned_not_blank _ Hc2). simpl.
    destruct (clean_name_fixed company) as [-> ->].
    by destruct (Nat.ltb_spec 100
                   (String.length (collapse_spaces (trim company))));
      [lia|].
  - unfold cleanCityName. rewrite Hy3 in *.
    rewrite (cleaned_not_blank _ Hy2). simpl.
    destruct (clean_name_fixed city) as [-> ->].
    by destruct (Nat.ltb_spec 50
                   (String.length (collapse_spaces (trim city))));
      [lia|].
  - unfold cleanPhoneNumber. rewrite Hp3 in *.
    assert (is_blank (Some (trim phone)) = false) as ->.
    { simpl. rewrite <- is_empty_length, trim_idempotent, Hp2.
      destruct (trim phone); [done|done]. }
    simpl. rewrite trim_idempotent.
    by destruct (Nat.ltb_spec (String.length (digits (trim phone))) 10);
      [lia|].
Qed.

Lemma cleaned_fields_stay_clean_witness :
  let row : gmap string string :=
    list_to_map [("company", "  Smith   Plumbing "); ("city", "Austin");
                 ("phone", " (555) 123-4567"); ("business_type", "Plumber")] in
  cleanCompanyName (Some "Smith Plumbing") = Ok "Smith Plumbing"
  ∧ cleanCityName (Some "Austin") = Ok "Austin"
  ∧ cleanPhoneNumber (Some "(555) 123-4567") = Ok "(555) 123-4567".
Proof.
  intros row.
  apply (cleaned_fields_stay_clean row 7
           (mkProspect "prospect_0007" "Smith Plumbing" "Austin"
              "(555) 123-4567" (JStr "plumbing") 7)).
  reflexivity.
Defined.

End Cleaning.

Section Batch.
Import JsString CsvParser Spec.

Lemma fold_on_data (rows : list (gmap string string)) (st : ParseState) :
  let st' := fold_left on_data rows st in
  rowCount st' = (rowCount st + length rows)%nat
  ∧ (length (prospects st') + length (errors st')
     = length (prospects st) + length (errors st) + length rows)%nat
  ∧ ∀ p, p ∈ prospects st'
         ↔ p ∈ prospects st
           ∨ ∃ i row, rows !! i = Some row
                      ∧ validateAndCleanProspect row (rowCount st + S i)
                        = Ok p.
Proof.
  revert st. induction rows as [|row rows IH]; intros st; simpl.
  - split_and!; [lia|lia|]. intros p. split; [by left|].
    intros [?|(i & r & Hi & _)]; [done|]. by rewrite lookup_nil in Hi.
  - destruct (IH (on_data st row)) as (Hcount & Hlen & Hin).
    assert (rowCount (on_data st row) = S (rowCount st)) as Hrc.
    { unfold on_data. by destruct (validateAndCleanProspect _ _). }
    split_and!.
    + rewrite Hcount, Hrc. lia.
    + rewrite Hlen. unfold on_data.
      destruct (validateAndCleanProspect row (S (rowCount st))); simpl;
        rewrite length_app; simpl; lia.
    + intros p. rewrite Hin, Hrc. split.
      * intros [Hp|(i & r & Hi & Hr)].
        -- unfold on_data in Hp.
           destruct (validateAndCleanProspect row (S (rowCount st)))
             as [q|] eqn:Hrow; simpl in Hp; [|by left].
           apply elem_of_app in Hp as [Hp|Hp]; [by left|].
           apply list_elem_of_singleton in Hp as ->.
           right. exists 0%nat, row. split; [done|].
           by rewrite Nat.add_1_r.
        -- right. exists (S i), r. split; [done|].
           by replace (rowCount st + S (S i))%nat
             with (S (rowCount st) + S i)%nat by lia.
      * intros [Hp|(i & r & Hi & Hr)].
        -- left. unfold on_data.
           destruct (validateAndCleanProspect row (S (rowCount st))); simpl;
             [|done].
           apply elem_of_app. by left.
        -- destruct i as [|i]; simpl in Hi.
           ++ injection Hi as <-. left. unfold on_data.
              rewrite Nat.add_1_r in Hr. rewrite Hr. simpl.
              apply elem_of_app. right. by apply list_elem_of_singleton.
           ++ right. exists i, r. split; [done|].
              by replace (S (rowCount st) + S i)%nat
                with (rowCount st + S (S i))%nat by lia.
Qed.

(** A failing row does not abort the batch.  Every row is counted, as a
    prospect or as an error; the prospects returned are those of the rows
    that validate under their 1-based position, and of no other; the
    parse fails, with [No valid prospects found in CSV file], exactly
    when no row validates. *)
Theorem parse_keeps_every_valid_row (rows : list (gmap string string)) :
  let st := fold_left on_data rows initial in
  rowCount st = length rows
  ∧ (length (prospects st) + length (errors st))%nat = length rows
  ∧ match parseProspectsCSV rows with
    | Ok parsed =>
        parsed ≠ []
        ∧ ∀ p, p ∈ parsed
               ↔ ∃ i row, rows !! i = Some row
                          ∧ validateAndCleanProspect row (S i) = Ok p
    | Throw message =>
        message = "No valid prospects found in CSV file"
        ∧ ∀ i row, rows !! i = Some row →
                   ∃ reason, validateAndCleanProspect row (S i) = Throw reason
    end.
Proof.
  destruct (fold_on_data rows initial) as (Hcount & Hlen & Hin).
  simpl in *. split_and!; [done|done|].
  unfold parseProspectsCSV, on_end.
  assert (∀ p, p ∈ prospects (fold_left on_data rows initial)
               ↔ ∃ i row, rows !! i = Some row
                          ∧ validateAndCleanProspect row (S i) = Ok p)
    as Hin'.
  { intros p. rewrite Hin. split; [|by right].
    intros [Hp|?]; [|done]. by apply elem_of_nil in Hp. }
  destruct (prospects (fold_left on_data rows initial)) as [|q qs] eqn:Hps;
    simpl.
  - split; [done|]. intros i row Hi.
    destruct (validateAndCleanProspect row (S i)) as [p|reason] eqn:Hrow;
      [|eauto].
    exfalso. eapply elem_of_nil, Hin'. eauto.
  - split; [done|]. exact Hin'.
Qed.

End Batch.

(** ** The link grouper *)

Section Grouper.
Import JsString UrlGenerator Spec.

Lemma links_of_app (k : string) (l1 l2 : list LinkMapping) :
  links_of k (l1 ++ l2) = links_of k l1 ++ links_of k l2.
Proof. apply filter_app. Qed.

Lemma links_of_plain (k : string) (done : list LinkMapping) :
  Forall (λ m, plain_key (m_prospect_id (metadata m))) done →
  ¬ plain_key k → links_of k done = [].
Proof.
  intros Hall Hk. unfold links_of.
  induction Hall as [|m rest Hm _ IH]; [done|].
  rewrite filter_cons. case_decide as Heq; [|done].
  rewrite Heq in Hm. done.
Qed.

Lemma group_step_invariant (done : list LinkMapping)
  (grouped : gmap string (ProspectGroup js_value)) (mapping : LinkMapping) :
  (∀ k, grouped !! k = group_of k done) →
  plain_key (m_prospect_id (metadata mapping)) →
  ∃ grouped',
    group_step grouped mapping = Ok grouped'
    ∧ ∀ k, grouped' !! k = group_of k (done ++ [mapping]).
Proof.
  intros Hinv Hplain. unfold group_step, JsObject.get.
  set (km := m_prospect_id (metadata mapping)) in *.
  assert (links_of km [mapping] = [mapping]) as Hself.
  { unfold links_of. rewrite filter_cons. by case_decide. }
  assert (∀ k, k ≠ km → links_of k [mapping] = []) as Hother.
  { intros k Hk. unfold links_of. rewrite filter_cons.
    case_decide as Heq; [|done]. by destruct Hk. }
  assert (∀ (new : ProspectGroup js_value) k,
            k ≠ km → <[km := new]> grouped !! k
                     = group_of k (done ++ [mapping])) as Hne.
  { intros new k Hk. rewrite lookup_insert_ne by done.
    unfold group_of. by rewrite links_of_app, Hother, app_nil_r, Hinv. }
  pose proof (Hinv km) as Hkm. unfold group_of in Hkm.
  destruct (grouped !! km) as [group|] eqn:Hgroup.
  - eexists. split; [reflexivity|]. intros k.
    destruct (decide (k = km)) as [->|Hk]; [|by apply Hne].
    rewrite lookup_insert_eq. unfold group_of.
    rewrite links_of_app, Hself.
    destruct (links_of km done) as [|first rest]; [done|].
    injection Hkm as ->. simpl. by rewrite fmap_app.
  - rewrite bool_decide_eq_false_2 by done.
    eexists. split; [reflexivity|]. intros k.
    destruct (decide (k = km)) as [->|Hk]; [|by apply Hne].
    rewrite lookup_insert_eq. unfold group_of.
    rewrite links_of_app, Hself.
    by destruct (links_of km done) as [|first rest].
Qed.

Lemma group_from_invariant (rest done : list LinkMapping)
  (grouped : gmap string (ProspectGroup js_value)) :
  (∀ k, grouped !! k = group_of k done) →
  Forall (λ m, plain_key (m_prospect_id (metadata m))) done →
  match group_from grouped rest with
  | Ok grouped' =>
      Forall (λ m, plain_key (m_prospect_id (metadata m))) rest
      ∧ ∀ k, grouped' !! k = group_of k (done ++ rest)
  | Throw message =>
      message = "Cannot read properties of undefined (reading 'push')"
      ∧ Exists (λ m, ¬ plain_key (m_prospect_id (metadata m))) rest
  end.
Proof.
  revert done grouped.
  induction rest as [|mapping rest IH]; intros done grouped Hinv Hdone; simpl.
  - split; [constructor|]. intros k. by rewrite app_nil_r.
  - destruct (decide (plain_key (m_prospect_id (metadata mapping))))
      as [Hplain|Hnot].
    + destruct (group_step_invariant done grouped mapping Hinv Hplain)
        as (grouped' & -> & Hinv'). simpl.
      specialize (IH (done ++ [mapping]) grouped' Hinv').
      rewrite <- app_assoc in IH. simpl in IH.
      destruct (group_from grouped' rest) as [final|message].
      * destruct IH as [Hrest Hfinal];
          [apply Forall_app; split; [done|by constructor]|].
        split; [by constructor|done].
      * destruct IH as [-> Hex];
          [apply Forall_app; split; [done|by constructor]|].
        split; [done|by apply Exists_cons_tl].
    + unfold group_step, JsObject.get.
      pose proof (Hinv (m_prospect_id (metadata mapping))) as Hkm.
      unfold group_of in Hkm.
      rewrite (links_of_plain _ _ Hdone Hnot) in Hkm. rewrite Hkm.
      rewrite bool_decide_eq_true_2; simpl.
      * split; [done|by apply Exists_cons_hd].
      * unfold plain_key in Hnot. by apply dec_stable.
Qed.

Lemma grouper_partitions_in_order_aux (urlMappings : list LinkMapping) :
  match groupUrlsByProspect urlMappings with
  | Ok grouped =>
      Forall (λ m, plain_key (m_prospect_id (metadata m))) urlMappings
      ∧ ∀ k, grouped !! k = group_of k urlMappings
  | Throw message =>
      message = "Cannot read properties of undefined (reading 'push')"
      ∧ Exists (λ m, ¬ plain_key (m_prospect_id (metadata m))) urlMappings
  end.
Proof.
  unfold groupUrlsByProspect.
  apply (group_from_invariant urlMappings [] ∅); [|constructor].
  intros k. by rewrite lookup_empty.
Qed.

(** The grouper partitions the flat list by prospect identifier and keeps
    the encounter order: when it returns, the group of every identifier
    holds one link per mapping with that identifier, in the order of the
    list, each with a null [short_url], under the company and category of
    the first of them, and an identifier without a mapping has no group.
    It throws, on the [push], exactly when some identifier names a member
    of [Object.prototype]. *)
Theorem grouper_partitions_in_order (urlMappings : list LinkMapping) :
  match groupUrlsByProspect urlMappings with
  | Ok grouped =>
      Forall (λ m, plain_key (m_prospect_id (metadata m))) urlMappings
      ∧ ∀ k, grouped !! k = group_of k urlMappings
  | Throw message =>
      message = "Cannot read properties of undefined (reading 'push')"
      ∧ Exists (λ m, ¬ plain_key (m_prospect_id (metadata m))) urlMappings
  end.
Proof. apply grouper_partitions_in_order_aux. Qed.

End Grouper.

(** ** From prospects to groups *)

Section Pipeline.
Import JsString UrlGenerator BulkUploader Spec.
Context `{api : UrlApi}.

Lemma forEach_site_complete (prospect : Prospect) (configured : list Site)
  (index : nat) (urlMappings : list LinkMapping) :
  Forall (λ site, is_Some (new_URL (site_url site))) configured →
  ∃ result, forEach_site prospect configured index urlMappings = Ok result.
Proof.
  intros Hall. revert index urlMappings.
  induction Hall as [|site rest [url Hurl] _ IH]; intros index urlMappings;
    simpl; [eauto|].
  unfold createPersonalizedUrl. rewrite Hurl. simpl. apply IH.
Qed.

Lemma forEach_site_first_invalid (prospect : Prospect)
  (configured : list Site) (index : nat) (urlMappings : list LinkMapping)
  (i : nat) (site : Site) :
  configured !! i = Some site →
  new_URL (site_url site) = None →
  (∀ j earlier, (j < i)%nat → configured !! j = Some earlier →
     is_Some (new_URL (site_url earlier))) →
  forEach_site prospect configured index urlMappings
  = Throw ("Invalid base URL: " +:+ site_url site).
Proof.
  revert index urlMappings i.
  induction configured as [|first rest IH]; intros index urlMappings i;
    [by rewrite lookup_nil|].
  destruct i as [|i]; simpl.
  - intros [= ->] Hbad _. unfold createPersonalizedUrl. by rewrite Hbad.
  - intros Hsite Hbad Hearlier.
    destruct (Hearlier 0%nat first) as [url Hurl]; [lia|done|].
    unfold createPersonalizedUrl at 1. rewrite Hurl. simpl.
    apply (IH _ _ i); [done|done|].
    intros j earlier Hj Hlookup. apply (Hearlier (S j) earlier); [lia|done].
Qed.

Lemma generation_succeeds_iff (prospect : Prospect)
  (businessConfig : gmap string BusinessTypeConfig) :
  (∃ urlMappings,
     generateUrlsForProspect prospect businessConfig = Ok urlMappings)
  ↔ ∃ config configured,
      businessConfig !! p_business_type prospect = Some config
      ∧ sites config = Some configured
      ∧ configured ≠ []
      ∧ Forall (λ site, is_Some (new_URL (site_url site))) configured.
Proof.
  unfold generateUrlsForProspect, JsObject.get. split.
  - intros [urlMappings Hrun].
    destruct (businessConfig !! p_business_type prospect) as [config|];
      [|by case_bool_decide].
    destruct (sites config) as [[|site rest]|] eqn:Hsites; [done| |done].
    exists config, (site :: rest). split_and!; try done.
    apply Forall_lookup. intros i s Hs.
    destruct (new_URL (site_url s)) as [url|] eqn:Hurl; [eauto|].
    exfalso.
    assert (∃ j bad, (site :: rest) !! j = Some bad
                     ∧ new_URL (site_url bad) = None
                     ∧ ∀ k earlier, (k < j)%nat →
                         (site :: rest) !! k = Some earlier →
                         is_Some (new_URL (site_url earlier)))
      as (j & bad & Hj & Hbad & Hearlier).
    { clear Hrun Hsites. revert Hs Hurl. generalize (site :: rest).
      intros l. revert i.
      induction l as [|x l IH]; intros i Hs Hurl;
        [by rewrite lookup_nil in Hs|].
      destruct (new_URL (site_url x)) as [u|] eqn:Hx.
      - destruct i as [|i]; simpl in Hs; [congruence|].
        destruct (IH i Hs Hurl) as (j & bad & Hj & Hbad & Hearlier).
        exists (S j), bad. split_and!; [done|done|].
        intros [|k] earlier Hk Hlookup; simpl in Hlookup.
        + injection Hlookup as <-. eauto.
        + apply (Hearlier k); [lia|done].
      - exists 0%nat, x. split_and!; [done|done|]. intros k ? Hk. lia. }
    rewrite (forEach_site_first_invalid _ _ _ _ j bad Hj Hbad Hearlier)
      in Hrun.
    done.
  - intros (config & configured & -> & -> & Hne & Hall).
    destruct configured as [|site rest]; [done|].
    by apply forEach_site_complete.
Qed.

(** Link generation is all or nothing.  It succeeds exactly when the
    prospect's category has a configuration entry with a non-empty list of
    links whose base URLs all parse. *)
Theorem generation_all_or_nothing (prospect : Prospect)
  (businessConfig : gmap string BusinessTypeConfig) :
  (∃ urlMappings,
     generateUrlsForProspect prospect businessConfig = Ok urlMappings)
  ↔ ∃ config configured,
      businessConfig !! p_business_type prospect = Some config
      ∧ sites config = Some configured
      ∧ configured ≠ []
      ∧ Forall (λ site, is_Some (new_URL (site_url site))) configured.
Proof. apply generation_succeeds_iff. Qed.


End Pipeline.


Section Groups.
Import JsString UrlGenerator BulkUploader Spec.
Context `{api : UrlApi}.

Lemma generateDemoUrls_from (businessConfig : gmap string BusinessTypeConfig)
  (prospects : list Prospect) (st : list LinkMapping * nat) :
  fold_left (demo_urls_step businessConfig) prospects st
  = (st.1 ++ concat (contributed businessConfig <$> prospects),
     (st.2 + length (concat (contributed businessConfig <$> prospects)))%nat).
Proof.
  revert st. induction prospects as [|prospect rest IH]; intros [acc total];
    simpl.
  - by rewrite app_nil_r, Nat.add_0_r.
  - rewrite IH. unfold demo_urls_step, contributed.
    destruct (generateUrlsForProspect prospect businessConfig)
      as [prospectUrls|]; simpl.
    + rewrite <- app_assoc. f_equal. rewrite length_app.
      symmetry. apply Nat.add_assoc.
    + done.
Qed.

Lemma generateDemoUrls_concat (businessConfig : gmap string BusinessTypeConfig)
  (prospects : list Prospect) :
  generateDemoUrls businessConfig prospects
  = concat (contributed businessConfig <$> prospects).
Proof. unfold generateDemoUrls. by rewrite generateDemoUrls_from. Qed.

Lemma contributed_metadata (businessConfig : gmap string BusinessTypeConfig)
  (prospect : Prospect) (mapping : LinkMapping) :
  mapping ∈ contributed businessConfig prospect →
  m_prospect_id (metadata mapping) = p_id prospect
  ∧ m_company (metadata mapping) = p_company prospect
  ∧ m_business_type (metadata mapping) = p_business_type prospect.
Proof.
  unfold contributed.
  destruct (generateUrlsForProspect prospect businessConfig)
    as [urlMappings|] eqn:Hrun; [|by intros ?%elem_of_nil].
  apply generateUrlsForProspect_links in Hrun
    as (config & configured & _ & _ & Hlen & Hlinks).
  intros (i & Hi)%list_elem_of_lookup.
  assert (i < length configured)%nat as Hlt.
  { rewrite <- Hlen. by eapply lookup_lt_Some. }
  apply lookup_lt_is_Some in Hlt as [site Hsite].
  destruct (Hlinks i site Hsite) as (mapping' & Hi' & _ & Hmeta).
  rewrite Hi in Hi'. injection Hi' as <-. by rewrite Hmeta.
Qed.

Lemma links_of_contributed (businessConfig : gmap string BusinessTypeConfig)
  (prospect : Prospect) (k : string) :
  links_of k (contributed businessConfig prospect)
  = if decide (p_id prospect = k) then contributed businessConfig prospect
    else [].
Proof.
  unfold links_of.
  pose proof (contributed_metadata businessConfig prospect) as Hmeta.
  induction (contributed businessConfig prospect) as [|m l IH].
  - by case_decide.
  - rewrite filter_cons.
    destruct (Hmeta m) as (Hid & _); [by left|].
    rewrite IH by (intros m' Hm'; apply Hmeta; by right).
    rewrite Hid. by repeat case_decide.
Qed.

Lemma links_of_generated (businessConfig : gmap string BusinessTypeConfig)
  (prospects : list Prospect) (prospect : Prospect) :
  NoDup (p_id <$> prospects) → prospect ∈ prospects →
  links_of (p_id prospect) (concat (contributed businessConfig <$> prospects))
  = contributed businessConfig prospect.
Proof.
  induction prospects as [|q rest IH]; [by intros _ ?%elem_of_nil|].
  intros Hdup Hin. rewrite fmap_cons in Hdup.
  apply NoDup_cons in Hdup as [Hq Hrest].
  change (concat (contributed businessConfig <$> q :: rest))
    with (contributed businessConfig q
          ++ concat (contributed businessConfig <$> rest)).
  rewrite links_of_app, links_of_contributed.
  assert (∀ r, r ∈ rest → p_id r ≠ p_id q) as Hfresh.
  { intros r Hr Heq. apply Hq. rewrite <- Heq.
    by apply list_elem_of_fmap_2. }
  apply elem_of_cons in Hin as [Heq|Hin].
  - subst prospect. rewrite decide_True by done.
    assert (links_of (p_id q) (concat (contributed businessConfig <$> rest))
            = []) as ->; [|by rewrite app_nil_r].
    clear IH Hrest Hq. induction rest as [|r rest IH]; [done|].
    change (concat (contributed businessConfig <$> r :: rest))
      with (contributed businessConfig r
            ++ concat (contributed businessConfig <$> rest)).
    rewrite links_of_app, links_of_contributed, decide_False.
    + apply IH. intros r' Hr'. apply Hfresh. by right.
    + apply Hfresh. by left.
  - rewrite decide_False by (intros Heq; by apply (Hfresh prospect)).
    by apply IH.
Qed.

Lemma generated_nonempty (businessConfig : gmap string BusinessTypeConfig)
  (prospect : Prospect) (urlMappings : list LinkMapping) :
  generateUrlsForProspect prospect businessConfig = Ok urlMappings →
  urlMappings ≠ [].
Proof.
  intros Hrun.
  destruct (proj1 (generation_succeeds_iff prospect businessConfig)
              (ex_intro _ _ Hrun))
    as (config & configured & Hc & Hs & Hne & _).
  apply generateUrlsForProspect_links in Hrun
    as (config' & configured' & Hc' & Hs' & Hlen & _).
  rewrite Hc in Hc'. injection Hc' as <-.
  rewrite Hs in Hs'. injection Hs' as <-.
  intros ->. by destruct configured.
Qed.

(** From prospects to groups.  For prospects with pairwise distinct
    identifiers, none naming a member of [Object.prototype], grouping the
    links of [generateDemoUrls] succeeds, and the group of a prospect
    holds the links generated for that prospect, in generation order and
    under its company and category; a prospect whose generation throws
    has no group, and the batch goes on without it. *)
Theorem groups_hold_generated_links
  (businessConfig : gmap string BusinessTypeConfig)
  (prospects : list Prospect) :
  NoDup (p_id <$> prospects) →
  Forall (λ prospect, plain_key (p_id prospect)) prospects →
  ∃ grouped,
    groupUrlsByProspect (generateDemoUrls businessConfig prospects)
    = Ok grouped
    ∧ ∀ prospect,
        prospect ∈ prospects →
        grouped !! p_id prospect
        = match generateUrlsForProspect prospect businessConfig with
          | Ok urlMappings =>
              Some (mkProspectGroup (p_id prospect) (p_company prospect)
                      (p_business_type prospect) (url_entry <$> urlMappings))
          | Throw _ => None
          end.
Proof.
  intros Hdup Hplain.
  pose proof (grouper_partitions_in_order_aux
                (generateDemoUrls businessConfig prospects)) as Hgroup.
  destruct (groupUrlsByProspect (generateDemoUrls businessConfig prospects))
    as [grouped|message].
  - destruct Hgroup as [_ Hgrouped]. exists grouped. split; [done|].
    intros prospect Hin. rewrite Hgrouped. unfold group_of.
    rewrite generateDemoUrls_concat, (links_of_generated _ _ _ Hdup Hin).
    pose proof (contributed_metadata businessConfig prospect) as Hmeta.
    unfold contributed in *.
    destruct (generateUrlsForProspect prospect businessConfig)
      as [[|first rest]|] eqn:Hrun; [|by destruct (Hmeta first) as (_ & -> & ->); [by left|]|done].
    by apply generated_nonempty in Hrun.
  - exfalso. destruct Hgroup as [_ Hex].
    apply Exists_exists in Hex as (mapping & Hin & Hnot).
    rewrite generateDemoUrls_concat in Hin.
    apply list_elem_of_In, in_concat in Hin as (l & Hl & Hmapping).
    apply list_elem_of_In, list_elem_of_fmap in Hl
      as (prospect & -> & Hprospect).
    apply list_elem_of_In in Hmapping.
    apply contributed_metadata in Hmapping as (Hid & _).
    rewrite Forall_forall in Hplain. apply Hnot. rewrite Hid.
    by apply Hplain.
Qed.

End Groups.

(** Two prospects, one of a category that is not configured. *)
Lemma groups_hold_generated_links_witness :
  let smith : Prospect :=
    mkProspect "prospect_0001" "Smith" "Austin" "5551234567" "plumbing" 1 in
  let green : Prospect :=
    mkProspect "prospect_0002" "Green" "Phoenix" "6025559876" "landscaping" 2 in
  let businessConfig : gmap string BusinessTypeConfig :=
    {["plumbing" :=
        mkBusinessTypeConfig
          (Some [mkSite "https://one.example/" "Emergency Services Demo";
                 mkSite "https://two.example/" "Modern Design Example"])]} in
  ∃ grouped,
    UrlGenerator.groupUrlsByProspect
      (UrlGenerator.generateDemoUrls (api := SampleUrl.api) businessConfig
         [smith; green])
    = Ok grouped
    ∧ ∀ prospect,
        prospect ∈ [smith; green] →
        grouped !! p_id prospect
        = match
            UrlGenerator.generateUrlsForProspect (api := SampleUrl.api)
              prospect businessConfig
          with
          | Ok urlMappings =>
              Some (mkProspectGroup (p_id prospect) (p_company prospect)
                      (p_business_type prospect)
                      (UrlGenerator.url_entry <$> urlMappings))
          | Throw _ => None
          end.
Proof.
  intros smith green businessConfig.
  apply (groups_hold_generated_links (api := SampleUrl.api) businessConfig
           [smith; green]).
  - simpl. apply NoDup_cons. split.
    + intros Hin%list_elem_of_singleton. discriminate Hin.
    + apply NoDup_singleton.
  - repeat constructor; unfold Spec.plain_key, JsObject.prototype_members;
      simpl; rewrite !elem_of_cons, elem_of_nil;
      intros H; repeat (destruct H as [H|H]; [discriminate H|]); done.
Defined.

(** ** Joining the fallback results *)

Section SkipShortener.
Import JsString UrlGenerator BulkUploader Spec.

Lemma last_answer_from (url : string) (shortenedResults : list ShortenResult)
  (found : option string) :
  Forall (λ r, success r = true
               ∧ shortUrl <$> data r = Some (r_original_url r))
    shortenedResults →
  found = Some url ∨ (∃ r, r ∈ shortenedResults ∧ r_original_url r = url) →
  fold_left
    (fun found r =>
       match success r, data r with
       | true, Some d =>
           if bool_decide (r_original_url r = url) then Some (shortUrl d)
           else found
       | _, _ => found
       end)
    shortenedResults found
  = Some url.
Proof.
  intros Hall. revert found.
  induction Hall as [|r rest [Hs Hd] _ IH]; intros found Hfound; simpl.
  - destruct Hfound as [?|(r & Hr & _)]; [done|]. by apply elem_of_nil in Hr.
  - apply IH. rewrite Hs.
    destruct (data r) as [d|]; [|done]. simpl in Hd. injection Hd as Hd.
    case_bool_decide as Hurl.
    + left. by rewrite Hd, Hurl.
    + destruct Hfound as [?|(r' & Hr' & Hurl')]; [by left|].
      apply elem_of_cons in Hr' as [->|Hr']; [done|]. right. eauto.
Qed.

Lemma fallback_lookup (clock : nat -> Z) (urlMappings : list LinkMapping)
  (mapping : LinkMapping) :
  mapping ∈ urlMappings →
  original_url mapping ≠ "__proto__" →
  build_lookup (createFallbackResults clock urlMappings)
    !! original_url mapping
  = Some (original_url mapping).
Proof.
  intros Hin Hproto.
  rewrite build_lookup_last_answer by done.
  pose proof (createFallbackResults_each clock urlMappings) as Heach.
  apply last_answer_from.
  - clear Hin. induction Heach as [|m r ms rs (Hs & Hu & Hd & _) _ IH];
      constructor; [|done].
    split; [done|]. by rewrite Hu.
  - right. apply list_elem_of_lookup in Hin as [i Hi].
    destruct (Forall2_lookup_l _ _ _ _ _ Heach Hi) as (r & Hr & _ & Hu & _).
    exists r. split; [|done]. apply list_elem_of_lookup. eauto.
Qed.

(** With shortening skipped or failed, every link keeps its own URL:
    joining the groups of a list of mappings with the fallback results of
    the same list sets every [short_url] to the link's [original_url]
    (for links whose URL is not the text [__proto__]). *)
Theorem fallback_join_keeps_original_urls (clock : nat -> Z)
  (urlMappings : list LinkMapping)
  (grouped : gmap string (ProspectGroup js_value)) (key : string)
  (group : ProspectGroup js_value) :
  groupUrlsByProspect urlMappings = Ok grouped →
  Forall (λ mapping, original_url mapping ≠ "__proto__") urlMappings →
  updateWithShortUrls grouped (createFallbackResults clock urlMappings) !! key
  = Some group →
  Forall (λ url, u_short_url url = JStr (u_original_url url)) (g_urls group).
Proof.
  intros Hgrouped Hurls.
  pose proof (grouper_partitions_in_order_aux urlMappings) as Hspec.
  rewrite Hgrouped in Hspec. destruct Hspec as [_ Hspec].
  unfold updateWithShortUrls. rewrite lookup_fmap, Hspec.
  unfold group_of.
  destruct (links_of key urlMappings) as [|first rest] eqn:Hlinks; [done|].
  simpl. intros [= <-]. simpl.
  assert (Forall (λ m, m ∈ urlMappings) (first :: rest)) as Hsub.
  { rewrite <- Hlinks. unfold links_of. apply Forall_forall.
    intros m Hm. by apply list_elem_of_filter in Hm as [_ ?]. }
  assert (∀ l, Forall (λ m, m ∈ urlMappings) l →
              Forall (λ url, u_short_url url = JStr (u_original_url url))
                (update_url
                   (build_lookup (createFallbackResults clock urlMappings))
                 <$> (url_entry <$> l))) as Hall.
  { intros l Hl. induction Hl as [|m l Hm _ IH]; [constructor|].
    simpl. constructor; [|exact IH].
    unfold update_url, JsObject.get. simpl.
    rewrite Forall_forall in Hurls.
    rewrite (fallback_lookup clock urlMappings m Hm (Hurls m Hm)).
    by destruct (original_url m). }
  exact (Hall (first :: rest) Hsub).
Qed.

End SkipShortener.

(** One prospect with two links, shortening skipped. *)
Lemma fallback_join_keeps_original_urls_witness :
  let mapping := fun (i : nat) (name : string) =>
    mkLinkMapping ("https://demo.example/" +:+ name)
      (mkMetadata "prospect_0001" "plumbing" i name "Smith") in
  let urlMappings := [mapping 0%nat "a"; mapping 1%nat "b"] in
  let clock := fun _ : nat => 1700000000000 in
  let group :=
    mkProspectGroup "prospect_0001" "Smith" "plumbing"
      [mkUrlEntry "https://demo.example/a" "a" 0%nat
         (JStr "https://demo.example/a");
       mkUrlEntry "https://demo.example/b" "b" 1%nat
         (JStr "https://demo.example/b")] in
  Forall (λ url, u_short_url url = JStr (u_original_url url)) (g_urls group).
Proof.
  intros mapping urlMappings clock group.
  apply (fallback_join_keeps_original_urls clock urlMappings
           {["prospect_0001" :=
               mkProspectGroup "prospect_0001" "Smith" "plumbing"
                 [UrlGenerator.url_entry (mapping 0%nat "a");
                  UrlGenerator.url_entry (mapping 1%nat "b")]]}
           "prospect_0001" group).
  - reflexivity.
  - repeat constructor; discriminate.
  - reflexivity.
Defined.

(** ** The message renderer, continued *)

Section Rendering.
Import JsString MessageGenerator Spec.




Lemma map_links_complete (format : string)
  (urls : list (UrlEntry (option string))) :
  ∃ lines, map_links (Some format) urls = Ok lines.
Proof.
  induction urls as [|url rest [lines IH]]; simpl; [eauto|].
  rewrite IH. simpl. eauto.
Qed.

Lemma generateMessageForProspect_complete (templates : Templates)
  (prospect : Prospect) (urls : list (UrlEntry (option string))) :
  complete templates →
  ∃ message, generateMessageForProspect prospect urls templates = Ok message.
Proof.
  intros (base & table & Hbase & Htable & [g Hg] & [i Hi] & [f Hf]).
  destruct (map_links_complete f urls) as [lines Hlines].
  assert (∀ override, ∃ t, first_truthy override (intro base) = Some t)
    as Hintro.
  { intros [[|c s]|]; simpl; rewrite ?Hi; eauto. }
  unfold generateMessageForProspect. rewrite Hbase, Htable.
  destruct (JsObject.get table (p_business_type prospect)) as [c| |];
    simpl; rewrite Hg; simpl.
  - destruct (Hintro (c_intro c)) as [t ->]. simpl.
    rewrite Hf, Hlines. simpl. eauto.
  - destruct (Hintro None) as [t Ht]. simpl in Ht. rewrite Ht. simpl.
    rewrite Hf, Hlines. simpl. eauto.
  - destruct (Hintro None) as [t Ht]. simpl in Ht. rewrite Ht. simpl.
    rewrite Hf, Hlines. simpl. eauto.
Qed.

Lemma loop_body_complete (templates : Templates)
  (groupedUrls : gmap string (ProspectGroup (option string)))
  (st : LoopState) (prospect : Prospect) :
  complete templates →
  let st' := loop_body templates groupedUrls st prospect in
  if has_links groupedUrls prospect
  then successCount st' = S (successCount st)
       ∧ errorCount st' = errorCount st
       ∧ ∃ group message,
           groupedUrls !! p_id prospect = Some group
           ∧ generateMessageForProspect prospect (g_urls group) templates
             = Ok message
           ∧ results st'
             = results st ++
                 [mkProspectWithMessage prospect message
                    ((λ url, mkDemoUrl (u_display_name url) (u_short_url url))
                       <$> g_urls group)]
  else successCount st' = successCount st
       ∧ errorCount st' = S (errorCount st)
       ∧ results st'
         = results st ++
             [mkProspectWithMessage prospect
                ("ERROR: Could not generate message - "
                 +:+ "No URLs found for prospect " +:+ p_id prospect) []].
Proof.
  intros Hcomplete. unfold loop_body, try_block, has_links, JsObject.get.
  destruct (groupedUrls !! p_id prospect) as [group|].
  - destruct (length (g_urls group) =? 0)%nat; simpl; [done|].
    destruct (generateMessageForProspect_complete templates prospect
                (g_urls group) Hcomplete) as [message Hmessage].
    rewrite Hmessage. simpl. split_and!; [done|done|]. eauto.
  - by case_bool_decide.
Qed.

(** With a complete template bundle the only error rows are those of
    prospects without links: a prospect whose group holds at least one
    link gets its rendered message and its links and is counted as a
    success, every other prospect gets the [No URLs found] error row and
    is counted as an error. *)
Theorem complete_templates_render_every_link_group (templates : Templates)
  (prospects : list Prospect)
  (groupedUrls : gmap string (ProspectGroup (option string))) :
  complete templates →
  let st :=
    fold_left (loop_body templates groupedUrls) prospects
      (mkLoopState [] 0 0) in
  successCount st = length (filter (λ p, has_links groupedUrls p = true) prospects)
  ∧ errorCount st
    = length (filter (λ p, has_links groupedUrls p = false) prospects)
  ∧ Forall2
      (λ prospect record,
         if has_links groupedUrls prospect
         then ∃ group message,
                groupedUrls !! p_id prospect = Some group
                ∧ generateMessageForProspect prospect (g_urls group) templates
                  = Ok message
                ∧ record
                  = mkProspectWithMessage prospect message
                      ((λ url,
                          mkDemoUrl (u_display_name url) (u_short_url url))
                         <$> g_urls group)
         else record
              = mkProspectWithMessage prospect
                  ("ERROR: Could not generate message - "
                   +:+ "No URLs found for prospect " +:+ p_id prospect) [])
      prospects (generateWhatsAppMessages templates prospects groupedUrls).
Proof.
  intros Hcomplete. unfold generateWhatsAppMessages.
  assert (∀ st0,
            let st := fold_left (loop_body templates groupedUrls) prospects st0 in
            successCount st
            = (successCount st0
               + length (filter (λ p, has_links groupedUrls p = true)
                           prospects))%nat
            ∧ errorCount st
              = (errorCount st0
                 + length (filter (λ p, has_links groupedUrls p = false)
                             prospects))%nat
            ∧ ∃ records,
                results st = results st0 ++ records
                ∧ Forall2
                    (λ prospect record,
                       if has_links groupedUrls prospect
                       then ∃ group message,
                              groupedUrls !! p_id prospect = Some group
                              ∧ generateMessageForProspect prospect
                                  (g_urls group) templates = Ok message
                              ∧ record
                                = mkProspectWithMessage prospect message
                                    ((λ url,
                                        mkDemoUrl (u_display_name url)
                                          (u_short_url url))
                                       <$> g_urls group)
                       else record
                            = mkProspectWithMessage prospect
                                ("ERROR: Could not generate message - "
                                 +:+ "No URLs found for prospect "
                                 +:+ p_id prospect) [])
                    prospects records) as Hloop.
  { induction prospects as [|prospect rest IH]; intros st0; simpl.
    - split_and!; [lia|lia|]. exists []. by rewrite app_nil_r.
    - destruct (IH (loop_body templates groupedUrls st0 prospect))
        as (Hs & He & records & Hr & Hrecords).
      pose proof (loop_body_complete templates groupedUrls st0 prospect
                    Hcomplete) as Hstep.
      simpl in Hstep. rewrite Hs, He, Hr, !filter_cons.
      destruct (has_links groupedUrls prospect) eqn:Hlinks.
      + destruct Hstep as (-> & -> & group & message & Hg & Hm & ->).
        rewrite decide_True, decide_False by done. simpl.
        split_and!; [lia|lia|].
        eexists (_ :: records). rewrite <- app_assoc.
        split; [reflexivity|]. constructor; [|done].
        rewrite Hlinks. eauto.
      + destruct Hstep as (-> & -> & ->).
        rewrite decide_False, decide_True by done. simpl.
        split_and!; [lia|lia|].
        eexists (_ :: records). rewrite <- app_assoc.
        split; [reflexivity|]. constructor; [|done].
        by rewrite Hlinks. }
  destruct (Hloop (mkLoopState [] 0 0)) as (Hs & He & records & Hr & Hrecords).
  simpl in *. rewrite Hs, He, Hr. by split_and!.
Qed.

End Rendering.

(** Three prospects: one with two links, one with an empty group, one
    without a group. *)
Lemma complete_templates_render_every_link_group_witness :
  let templates :=
    mkTemplates
      (Some (mkWhatsappTemplate (Some "Hi {company}!")
               (Some "You run a {business_type} business in {city}.")
               None (Some "* {display_name}: {short_url}")))
      (Some ∅) in
  let prospect := fun (n : string) (company : string) =>
    (mkProspect ("prospect_000" +:+ n) company "Austin" "5551234567"
       "general" 1 : Prospect) in
  let prospects :=
    [prospect "1" "Smith"; prospect "2" "Green"; prospect "3" "Quick"] in
  let groupedUrls : gmap string (ProspectGroup (option string)) :=
    {["prospect_0001" :=
        mkProspectGroup "prospect_0001" "Smith" "general"
          [mkUrlEntry "https://a.example/" "Demo A" 0%nat
             (Some "https://s.example/1");
           mkUrlEntry "https://b.example/" "Demo B" 1%nat None];
      "prospect_0002" :=
        mkProspectGroup "prospect_0002" "Green" "general" []]} in
  let st :=
    fold_left (MessageGenerator.loop_body templates groupedUrls) prospects
      (MessageGenerator.mkLoopState [] 0 0) in
  MessageGenerator.successCount st = 1%nat
  ∧ MessageGenerator.errorCount st = 2%nat
  ∧ whatsapp_message
    <$> MessageGenerator.generateWhatsAppMessages templates prospects
          groupedUrls
    = ["Hi Smith!" +:+ MessageGenerator.backslash_n
       +:+ MessageGenerator.backslash_n
       +:+ "You run a general business in Austin."
       +:+ MessageGenerator.backslash_n +:+ MessageGenerator.backslash_n
       +:+ "* Demo A: https://s.example/1" +:+ MessageGenerator.backslash_n
       +:+ "* Demo B: null";
       "ERROR: Could not generate message - No URLs found for prospect prospect_0002";
       "ERROR: Could not generate message - No URLs found for prospect prospect_0003"].
Proof.
  intros templates prospect prospects groupedUrls st.
  destruct (complete_templates_render_every_link_group templates prospects
              groupedUrls) as (Hs & He & _).
  - eexists _, _. repeat split; eauto.
  - split; [exact Hs|]. split; [exact He|]. reflexivity.
Defined.

(** The first row lacks a valid category, the other two parse. *)
Lemma parseProspectsCSV_ids_witness :
  let row := fun (company business_type : string) =>
    (list_to_map [("company", company); ("city", "Austin");
                  ("phone", "(555) 123-4567");
                  ("business_type", business_type)]
     : gmap string string) in
  let parsed :=
    [mkProspect "prospect_0002" "Smith Plumbing" "Austin" "(555) 123-4567"
       (JStr "plumbing") 2;
     mkProspect "prospect_0003" "Green Thumb" "Austin" "(555) 123-4567"
       (JStr "landscaping") 3] in
  NoDup (p_id <$> parsed)
  ∧ Forall (λ p, p_id p = Spec.prospect_id (p_original_row p)) parsed.
Proof.
  intros row parsed.
  apply (parseProspectsCSV_ids
           [row "Acme" "contractor"; row "Smith Plumbing" "plumber";
            row "Green Thumb" "garden"] parsed).
  reflexivity.
Defined.

Lemma missing_fields_rejected_witness :
  let row : gmap string string :=
    list_to_map [("company", "Acme"); ("city", "   ");
                 ("business_type", "general")] in
  ∃ missing,
    CsvParser.validateAndCleanProspect row 4
    = Throw ("Missing required fields: " +:+ JsString.join ", " missing)
    ∧ "phone" ∈ missing
    ∧ ∀ f, f ∈ missing
           ↔ f ∈ CsvParser.requiredFields
             ∧ CsvParser.is_missing row f = true.
Proof.
  intros row. apply (missing_fields_rejected row 4 "phone").
  - unfold CsvParser.requiredFields. rewrite !elem_of_cons. tauto.
  - reflexivity.
Defined.

Lemma validateBusinessType_returns_witness :
  Spec.canonical (JStr "landscaping")
  ∨ ∃ name, JStr "landscaping" = JInherited name
            ∧ name ∈ JsObject.prototype_members
            ∧ name = JsString.toLowerCase
                       (JsString.trim (default EmptyString (Some " Gardening "))).
Proof.
  apply (validateBusinessType_returns (Some " Gardening ")
           (JStr "landscaping")).
  reflexivity.
Defined.


(** ** Order of the parsed batch and remarks of the bulk validation *)

Section Order.
Import JsString CsvParser BulkUploader Spec.

Lemma StronglySorted_snoc {A} (R : A → A → Prop) (l : list A) (y : A) :
  StronglySorted R l → Forall (λ x, R x y) l → StronglySorted R (l ++ [y]).
Proof.
  induction 1 as [|x l Hl IH Hx]; intros Hall; simpl.
  - repeat constructor.
  - apply Forall_cons in Hall as [Hxy Hall].
    constructor; [by apply IH|].
    apply Forall_app. split; [done|by constructor].
Qed.

Lemma on_data_order (rows : list (gmap string string)) (st : ParseState) :
  StronglySorted lt (p_original_row <$> prospects st) →
  Forall (λ p, (rowCount initial < p_original_row p <= rowCount st)%nat)
    (prospects st) →
  let st' := fold_left on_data rows st in
  StronglySorted lt (p_original_row <$> prospects st')
  ∧ Forall (λ p, (rowCount initial < p_original_row p
                  <= rowCount st + length rows)%nat) (prospects st').
Proof.
  revert st. induction rows as [|row rows IH]; intros st Hsorted Hall; simpl.
  - split; [done|]. eapply Forall_impl; [exact Hall|]. simpl. lia.
  - assert (rowCount (on_data st row) = S (rowCount st)) as Hrc.
    { unfold on_data. by destruct (validateAndCleanProspect _ _). }
    destruct (IH (on_data st row)) as [Hs Hf].
    + unfold on_data.
      destruct (validateAndCleanProspect row (S (rowCount st)))
        as [prospect|] eqn:Hrow; simpl; [|done].
      apply validateAndCleanProspect_id in Hrow as [_ Hn].
      rewrite fmap_app. apply StronglySorted_snoc; [done|].
      apply Forall_fmap. eapply Forall_impl; [exact Hall|]. simpl. lia.
    + rewrite Hrc. unfold on_data.
      destruct (validateAndCleanProspect row (S (rowCount st)))
        as [prospect|] eqn:Hrow; simpl.
      * apply validateAndCleanProspect_id in Hrow as [_ Hn].
        apply Forall_app. split.
        -- eapply Forall_impl; [exact Hall|]. simpl. lia.
        -- constructor; [simpl; lia|constructor].
      * eapply Forall_impl; [exact Hall|]. simpl. lia.
    + split; [done|]. rewrite Hrc in Hf.
      eapply Forall_impl; [exact Hf|]. simpl. lia.
Qed.

(** The parsed prospects come in input order: their row numbers increase
    strictly along the list and lie between 1 and the number of rows. *)
Theorem parse_preserves_row_order (rows : list (gmap string string))
  (parsed : list (ProspectOf js_value)) :
  parseProspectsCSV rows = Ok parsed →
  StronglySorted lt (p_original_row <$> parsed)
  ∧ Forall (λ p, (1 <= p_original_row p <= length rows)%nat) parsed.
Proof.
  unfold parseProspectsCSV, on_end.
  destruct (on_data_order rows initial) as [Hsorted Hall];
    [constructor|constructor|].
  destruct (length _ =? 0)%nat; [done|]. intros [= <-].
  split; [done|]. eapply Forall_impl; [exact Hall|]. simpl. lia.
Qed.

Lemma parse_preserves_row_order_witness :
  let row := fun (company business_type : string) =>
    (list_to_map [("company", company); ("city", "Austin");
                  ("phone", "(555) 123-4567");
                  ("business_type", business_type)]
     : gmap string string) in
  let rows :=
    [row "Smith Plumbing" "plumber"; row "Acme" "contractor";
     row "Green Thumb" "garden"] in
  let parsed :=
    [mkProspect "prospect_0001" "Smith Plumbing" "Austin" "(555) 123-4567"
       (JStr "plumbing") 1;
     mkProspect "prospect_0003" "Green Thumb" "Austin" "(555) 123-4567"
       (JStr "landscaping") 3] in
  StronglySorted lt (p_original_row <$> parsed)
  ∧ Forall (λ p, (1 <= p_original_row p <= length rows)%nat) parsed.
Proof.
  intros row rows parsed.
  apply (parse_preserves_row_order rows parsed). reflexivity.
Defined.

Lemma validate_from_errors (results : list ShortenResult)
  (v : BulkValidation) (index : nat) :
  ∃ remarks,
    validation_errors (validate_from v index results)
    = validation_errors v ++ remarks
    ∧ (remarks = []
       ↔ Forall (λ r, success r = true
                      ∧ (fallback r = true
                         ∨ shortUrl <$> data r ≠ Some (r_original_url r)))
           results).
Proof.
  revert v index. induction results as [|r rest IH]; intros v index; simpl.
  - exists []. rewrite app_nil_r. split; [done|]. split; [constructor|done].
  - destruct (IH (validate_result v index r) (S index))
      as (remarks & -> & Hiff).
    unfold validate_result.
    destruct (success r) eqn:Hs; simpl.
    + destruct (fallback r) eqn:Hf; simpl.
      * exists remarks. split; [done|]. rewrite Hiff, Forall_cons.
        intuition auto.
      * destruct (data r) as [d|] eqn:Hd; simpl.
        -- case_bool_decide as Hsame.
           ++ eexists (_ :: remarks). rewrite <- app_assoc.
              split; [reflexivity|]. split; [done|].
              intros [[_ [?|Hne]] _]%Forall_cons; [congruence|].
              destruct Hne. rewrite ?Hd. simpl. by rewrite Hsame.
           ++ exists remarks. split; [done|]. rewrite Hiff, Forall_cons.
              split; [|tauto]. intros Hrest. split; [|done].
              split; [done|]. right. rewrite ?Hd. simpl. intros [= ?]. done.
        -- exists remarks. split; [done|]. rewrite Hiff, Forall_cons.
           split; [|tauto]. intros Hrest. split; [|done].
           split; [done|]. right. by rewrite ?Hd.
    + eexists (_ :: remarks). rewrite <- app_assoc.
      split; [reflexivity|]. split; [done|].
      intros [[? _] _]%Forall_cons. congruence.
Qed.

(** The bulk validation records no error exactly when as many results
    came back as mappings were sent, every result is successful, and no
    result outside fallback mode has its [shortUrl] equal to its
    [original_url]. *)
Theorem bulk_validation_silent_iff (results : list ShortenResult)
  (originalMappings : list LinkMapping) :
  validation_errors (validateBulkUploadResults results originalMappings) = []
  ↔ length results = length originalMappings
    ∧ Forall (λ r, success r = true
                   ∧ (fallback r = true
                      ∨ shortUrl <$> data r ≠ Some (r_original_url r)))
        results.
Proof.
  unfold validateBulkUploadResults.
  match goal with
  | |- context [validate_from ?v0 0 results] =>
      destruct (validate_from_errors results v0 0) as (remarks & -> & Hiff)
  end.
  cbv zeta.
  destruct (Nat.eqb_spec (length results) (length originalMappings)) as [Hlen|Hlen];
    simpl.
  - rewrite Hiff. tauto.
  - split; [done|]. by intros [? _].
Qed.

End Order.
